(** * Chroma Viewer: filter compiler, browse/search orchestration, metadata catalog

    A shallow embedding of the TypeScript sources of the viewer:
    - [src/unnamed/part_013]  ([use-filters.ts]): [filtersToWhereClause],
      [parseWhereClause], [parseSingleCondition], [setFiltersFromWhere];
    - [src/unnamed/part_004]  ([filter-editor.tsx]): [parseValue];
    - [src/lib/hooks/use-records.ts], [src/lib/hooks/use-search.ts]: the
      browse and search hooks and the requests they issue;
    - [src/app/api/records/route.ts], [src/app/api/search/route.ts]: the
      browse and search API routes;
    - [src/unnamed/part_007] ([api/metadata/route.ts]): metadata sampling.

    JavaScript strings are modelled as Rocq strings, i.e. sequences of code
    units below 256.  JavaScript numbers are modelled by the exact
    mathematical value of the literal they come from ([NDec m e] is
    [m * 10^e]); IEEE-754 rounding is not modelled. *)

From Stdlib Require Import String Ascii List ZArith Bool Lia.
Import ListNotations.
Open Scope string_scope.

(** ** JavaScript values *)

Inductive jsnum : Type :=
| NDec (m : Z) (e : Z)
| NInf (neg : bool).

Local Set Warnings "-register-all".

(** The JSON values the code handles, plus [undefined]. *)
Inductive json : Type :=
| JUndefined
| JNull
| JBool (b : bool)
| JNum (n : jsnum)
| JStr (s : string)
| JArr (l : list json)
| JObj (kv : list (string * json)).

(** A small error monad: a thrown JavaScript exception or a result. *)
Inductive result (A : Type) : Type :=
| Ok (a : A)
| Throw (msg : string).
Arguments Ok {A} a.
Arguments Throw {A} msg.

Definition bind {A B} (m : result A) (k : A -> result B) : result B :=
  match m with
  | Ok a => k a
  | Throw e => Throw e
  end.

Notation "'let*' x ':=' m 'in' k" := (bind m (fun x => k))
  (at level 200, x name, m at level 100, k at level 200).

(** Decimal rendering of a natural number, as [String(n)]. *)
Fixpoint digits_rev (fuel n : nat) : list ascii :=
  match fuel with
  | O => []
  | S fuel' =>
      let d := ascii_of_nat (48 + Nat.modulo n 10) in
      if Nat.ltb n 10 then [d] else d :: digits_rev fuel' (Nat.div n 10)
  end.

Definition string_of_nat (n : nat) : string :=
  string_of_list_ascii (rev (digits_rev (S n) n)).

Definition index_keys {A} (l : list A) : list string :=
  map string_of_nat (seq 0 (length l)).

(** [Object.keys(v)]: throws on [null] and [undefined]. *)
Definition object_keys (v : json) : result (list string) :=
  match v with
  | JUndefined | JNull =>
      Throw "TypeError: Cannot convert undefined or null to object"
  | JBool _ | JNum _ => Ok []
  | JStr s => Ok (index_keys (list_ascii_of_string s))
  | JArr l => Ok (index_keys l)
  | JObj kv => Ok (map fst kv)
  end.

Fixpoint assoc_get (kv : list (string * json)) (k : string) : json :=
  match kv with
  | [] => JUndefined
  | (k', v) :: rest => if String.eqb k' k then v else assoc_get rest k
  end.

(** [v[k]] for an own enumerable key [k] of [v] (the only reads the code
    makes), [undefined] otherwise. *)
Definition get (v : json) (k : string) : json :=
  match v with
  | JObj kv => assoc_get kv k
  | JArr l => assoc_get (combine (index_keys l) l) k
  | JStr s =>
      assoc_get (combine (index_keys (list_ascii_of_string s))
                   (map (fun c => JStr (String c EmptyString))
                      (list_ascii_of_string s))) k
  | _ => JUndefined
  end.

(** [k in v]: throws on primitives. *)
Definition has_property (v : json) (k : string) : result bool :=
  match v with
  | JObj kv => Ok (existsb (fun p => String.eqb (fst p) k) kv)
  | JArr l => Ok (existsb (String.eqb k) ("length" :: index_keys l))
  | _ => Throw "TypeError: Cannot use 'in' operator"
  end.

(** [typeof v === "object" && v !== null] *)
Definition is_object (v : json) : bool :=
  match v with
  | JArr _ | JObj _ => true
  | _ => false
  end.

(** JavaScript truthiness, as in [if (!where)]. *)
Definition truthy (v : json) : bool :=
  match v with
  | JUndefined | JNull => false
  | JBool b => b
  | JNum (NDec m _) => negb (Z.eqb m 0)
  | JNum (NInf _) => true
  | JStr s => negb (String.eqb s "")
  | JArr _ | JObj _ => true
  end.

(** ** Filters ([src/unnamed/part_000], type [Filter]) *)

Inductive FilterOperator : Type := OpEq | OpNe | OpGt | OpLt | OpIn.

Definition op_key (o : FilterOperator) : string :=
  match o with
  | OpEq => "$eq" | OpNe => "$ne" | OpGt => "$gt" | OpLt => "$lt" | OpIn => "$in"
  end.

(** [validOperators.includes(operator)] together with the cast. *)
Definition op_of_key (k : string) : option FilterOperator :=
  if String.eqb k "$eq" then Some OpEq
  else if String.eqb k "$ne" then Some OpNe
  else if String.eqb k "$gt" then Some OpGt
  else if String.eqb k "$lt" then Some OpLt
  else if String.eqb k "$in" then Some OpIn
  else None.

(** [id] is the opaque token of [generateId]; generated ids are modelled
    by a counter. *)
Record Filter : Type := mkFilter {
  id : nat;
  field : string;
  operator : FilterOperator;
  value : json
}.

(** ** [filtersToWhereClause] ([null] is [None]) *)

Definition predicate (filter : Filter) : json :=
  JObj [(field filter, JObj [(op_key (operator filter), value filter)])].

Definition filtersToWhereClause (filters : list Filter) : option json :=
  match filters with
  | [] => None
  | [filter] => Some (predicate filter)
  | _ => Some (JObj [("$and", JArr (map predicate filters))])
  end.

(** ** [parseSingleCondition], [parseWhereClause] *)

Definition parseSingleCondition (next : nat) (condition : json)
  : result (option Filter) :=
  let* keys := object_keys condition in
  match keys with
  | [fld] =>
      let operatorObj := get condition fld in
      if negb (is_object operatorObj) then Ok None else
      let* operators := object_keys operatorObj in
      match operators with
      | [op] =>
          match op_of_key op with
          | None => Ok None
          | Some o => Ok (Some (mkFilter next fld o (get operatorObj op)))
          end
      | _ => Ok None
      end
  | _ => Ok None
  end.

(** The loop over [where.$and]; [next] is the next generated id. *)
Fixpoint parseConditions (next : nat) (conditions : list json)
  : result (list Filter) :=
  match conditions with
  | [] => Ok []
  | condition :: rest =>
      let* parsed := parseSingleCondition next condition in
      match parsed with
      | Some f => let* fs := parseConditions (S next) rest in Ok (f :: fs)
      | None => parseConditions next rest
      end
  end.

Definition parseWhereClause (next : nat) (where_ : json) : result (list Filter) :=
  let* has_and := has_property where_ "$and" in
  match has_and, get where_ "$and" with
  | true, JArr conditions => parseConditions next conditions
  | _, _ =>
      let* parsed := parseSingleCondition next where_ in
      match parsed with
      | Some f => Ok [f]
      | None => Ok []
      end
  end.

(** ** The [useFilters] hook state *)

Record FiltersState : Type := mkFiltersState {
  filters : list Filter;
  next_id : nat
}.

Definition whereClause (s : FiltersState) : option json :=
  filtersToWhereClause (filters s).

(** [setFiltersFromWhere]; a thrown exception leaves the state unchanged. *)
Definition setFiltersFromWhere (s : FiltersState) (where_ : option json)
  : result FiltersState :=
  match where_ with
  | Some w =>
      if truthy w then
        let* parsed := parseWhereClause (next_id s) w in
        Ok (mkFiltersState parsed (next_id s + length parsed))
      else Ok (mkFiltersState [] (next_id s))
  | None => Ok (mkFiltersState [] (next_id s))
  end.

(** ** [parseValue] ([src/unnamed/part_004]) *)

(** JavaScript [WhiteSpace] and [LineTerminator] code units below 256, as
    removed by [String.prototype.trim] and by [Number]. *)
Definition is_js_space (c : ascii) : bool :=
  let n := nat_of_ascii c in
  (Nat.leb 9 n && Nat.leb n 13) || Nat.eqb n 32 || Nat.eqb n 160.

Fixpoint trim_start (l : list ascii) : list ascii :=
  match l with
  | c :: rest => if is_js_space c then trim_start rest else l
  | [] => []
  end.

Definition trim_list (l : list ascii) : list ascii :=
  rev (trim_start (rev (trim_start l))).

(** [s.trim()] *)
Definition trim (s : string) : string :=
  string_of_list_ascii (trim_list (list_ascii_of_string s)).

Fixpoint split_aux (sep : ascii) (cur : list ascii) (l : list ascii)
  : list (list ascii) :=
  match l with
  | [] => [rev cur]
  | c :: rest =>
      if Ascii.eqb c sep then rev cur :: split_aux sep [] rest
      else split_aux sep (c :: cur) rest
  end.

(** [s.split(sep)] for a one-character separator. *)
Definition split (sep : ascii) (s : string) : list string :=
  map string_of_list_ascii (split_aux sep [] (list_ascii_of_string s)).

(** The value of a digit in base [b], if it is one. *)
Definition digit_value (b : nat) (c : ascii) : option nat :=
  let n := nat_of_ascii c in
  let d :=
    if Nat.leb 48 n && Nat.leb n 57 then n - 48
    else if Nat.leb 97 n && Nat.leb n 102 then n - 87
    else if Nat.leb 65 n && Nat.leb n 70 then n - 55
    else 99 in
  if Nat.ltb d b then Some d else None.

Definition is_decimal_digit (c : ascii) : bool :=
  match digit_value 10 c with Some _ => true | None => false end.

Fixpoint span_digits (l : list ascii) : list ascii * list ascii :=
  match l with
  | c :: rest =>
      if is_decimal_digit c then
        let (ds, r) := span_digits rest in (c :: ds, r)
      else ([], l)
  | [] => ([], [])
  end.

(** The value of a non-empty digit sequence in base [b]. *)
Fixpoint digits_value (b : nat) (acc : Z) (l : list ascii) : option Z :=
  match l with
  | [] => Some acc
  | c :: rest =>
      match digit_value b c with
      | Some d => digits_value b (acc * Z.of_nat b + Z.of_nat d)%Z rest
      | None => None
      end
  end.

Definition decimal_value (ds : list ascii) : Z :=
  match digits_value 10 0 ds with Some z => z | None => 0%Z end.

(** [ExponentPart] of [StrUnsignedDecimalLiteral], or nothing. *)
Definition parse_exponent (l : list ascii) : option Z :=
  match l with
  | [] => Some 0%Z
  | c :: rest =>
      if Ascii.eqb c "e" || Ascii.eqb c "E" then
        let '(sign, r) :=
          match rest with
          | s :: r' =>
              if Ascii.eqb s "+" then (1%Z, r')
              else if Ascii.eqb s "-" then ((-1)%Z, r')
              else (1%Z, rest)
          | [] => (1%Z, rest)
          end in
        let (ds, r2) := span_digits r in
        match ds, r2 with
        | _ :: _, [] => Some (sign * decimal_value ds)%Z
        | _, _ => None
        end
      else None
  end.

(** [StrUnsignedDecimalLiteral] *)
Definition parse_unsigned_decimal (l : list ascii) : option jsnum :=
  if String.eqb (string_of_list_ascii l) "Infinity" then Some (NInf false)
  else
    let (ip, r1) := span_digits l in
    let '(fp, r2) :=
      match r1 with
      | c :: r => if Ascii.eqb c "." then span_digits r else ([], r1)
      | [] => ([], r1)
      end in
    match app ip fp with
    | [] => None
    | mant =>
        match parse_exponent r2 with
        | Some e => Some (NDec (decimal_value mant) (e - Z.of_nat (length fp)))
        | None => None
        end
    end.

Definition negate (n : jsnum) : jsnum :=
  match n with
  | NDec m e => NDec (- m) e
  | NInf b => NInf (negb b)
  end.

(** [StrDecimalLiteral]: an optional sign, then an unsigned literal. *)
Definition parse_decimal (l : list ascii) : option jsnum :=
  match l with
  | c :: rest =>
      if Ascii.eqb c "+" then parse_unsigned_decimal rest
      else if Ascii.eqb c "-" then option_map negate (parse_unsigned_decimal rest)
      else parse_unsigned_decimal l
  | [] => None
  end.

(** [NonDecimalIntegerLiteral]: [0x], [0o] or [0b] and at least one digit. *)
Definition parse_non_decimal (l : list ascii) : option jsnum :=
  match l with
  | z :: p :: (_ :: _) as ds =>
      if negb (Ascii.eqb z "0") then None else
      let base :=
        if Ascii.eqb p "x" || Ascii.eqb p "X" then 16
        else if Ascii.eqb p "o" || Ascii.eqb p "O" then 8
        else if Ascii.eqb p "b" || Ascii.eqb p "B" then 2
        else 0 in
      if Nat.eqb base 0 then None else
      option_map (fun v => NDec v 0) (digits_value base 0 ds)
  | _ => None
  end.

(** [Number(s)] on a string ([StringToNumber]); [None] is [NaN]. *)
Definition js_Number (s : string) : option jsnum :=
  match trim_list (list_ascii_of_string s) with
  | [] => Some (NDec 0 0)
  | t =>
      match parse_non_decimal t with
      | Some n => Some n
      | None => parse_decimal t
      end
  end.

Definition parseValue (value : string) (operator : FilterOperator) : json :=
  let trimmed := trim value in
  match operator with
  | OpIn => JArr (map (fun v => JStr (trim v)) (split "," trimmed))
  | _ =>
      match js_Number trimmed with
      | Some num => if negb (String.eqb trimmed "") then JNum num else JStr trimmed
      | None => JStr trimmed
      end
  end.

(** The reading of the spec's [parseOperatorValue]: a base-10 numeric
    parse of the trimmed string for the operators other than [$in]. *)
Definition parseOperatorValue_spec (raw : string) (operator : FilterOperator) : json :=
  let trimmed := trim raw in
  match operator with
  | OpIn => JArr (map (fun v => JStr (trim v)) (split "," trimmed))
  | _ =>
      match parse_decimal (list_ascii_of_string trimmed) with
      | Some num => JNum num
      | None => JStr trimmed
      end
  end.

(** ** Records and the collection collaborator (the [chromadb] client) *)

Definition Metadata : Type := list (string * json).

(** [ChromaRecord] ([src/unnamed/part_001]) *)
Record ChromaRecord : Type := mkChromaRecord {
  rec_id : string;
  rec_document : option string;
  rec_metadata : option Metadata;
  rec_embedding : option (list jsnum)
}.

Record GetParams : Type := mkGetParams {
  gp_offset : option Z;
  gp_limit : option Z;
  gp_where : option json;
  gp_whereDocument : option json;
  gp_include : list string
}.

(** Parallel columns of [collection.get]; a column not included is [None]. *)
Record GetResult : Type := mkGetResult {
  gr_ids : list string;
  gr_documents : option (list (option string));
  gr_metadatas : option (list (option Metadata));
  gr_embeddings : option (list (option (list jsnum)))
}.

Record QueryParams : Type := mkQueryParams {
  qp_queryTexts : list string;
  qp_nResults : Z;
  qp_where : option json;
  qp_include : list string
}.

(** Columns of [collection.query], one row per query text. *)
Record QueryResult : Type := mkQueryResult {
  qr_ids : list (list string);
  qr_documents : option (list (list (option string)));
  qr_metadatas : option (list (list (option Metadata)));
  qr_distances : option (list (list jsnum));
  qr_embeddings : option (list (list (option (list jsnum))))
}.

(** The collection handle the routes call; a thrown error is [Throw]. *)
Record Collection : Type := mkCollection {
  count : result nat;
  get_records : GetParams -> result GetResult;
  query : QueryParams -> result QueryResult
}.

(** [xs?.[i] ?? null] over an optional column of nullable cells. *)
Definition cell {A} (col : option (list (option A))) (i : nat) : option A :=
  match col with
  | Some l => match nth_error l i with Some (Some a) => Some a | _ => None end
  | None => None
  end.

(** [xs[i] ?? null] over a column of nullable cells. *)
Definition cell0 {A} (l : list (option A)) (i : nat) : option A :=
  match nth_error l i with Some (Some a) => Some a | _ => None end.

(** [xs.map((x, index) => f(index, x))] *)
Fixpoint map_index {A B} (f : nat -> A -> B) (i : nat) (l : list A) : list B :=
  match l with
  | [] => []
  | x :: rest => f i x :: map_index f (S i) rest
  end.

(** ** [GET /api/records] ([src/app/api/records/route.ts], the [try] block) *)

Record RecordsQuery : Type := mkRecordsQuery {
  rq_page : Z;
  rq_pageSize : Z;
  rq_where : option json;
  rq_whereDocument : option json
}.

Record RecordsResponse : Type := mkRecordsResponse {
  records : list ChromaRecord;
  total : nat;
  resp_page : Z;
  resp_pageSize : Z
}.

Definition records_of_get (result : GetResult) : list ChromaRecord :=
  map_index (fun index id =>
    mkChromaRecord id (cell (gr_documents result) index)
      (cell (gr_metadatas result) index) (cell (gr_embeddings result) index))
    0 (gr_ids result).

Definition records_GET (collection : Collection) (q : RecordsQuery)
  : result RecordsResponse :=
  let* total := count collection in
  let offset := ((rq_page q - 1) * rq_pageSize q)%Z in
  let* result := get_records collection
      (mkGetParams (Some offset) (Some (rq_pageSize q)) (rq_where q)
         (rq_whereDocument q) ["documents"; "metadatas"; "embeddings"]) in
  Ok (mkRecordsResponse (records_of_get result) total (rq_page q) (rq_pageSize q)).

(** ** [POST /api/search] ([src/app/api/search/route.ts], the [try] block) *)

Inductive SearchType : Type := SText | SSemantic.

Record SearchBody : Type := mkSearchBody {
  sb_query : string;
  sb_type : SearchType;
  sb_limit : Z;
  sb_where : option json
}.

Record SearchResponse : Type := mkSearchResponse {
  results : list ChromaRecord;
  distances : list jsnum
}.

(** [xs?.[0] || []] *)
Definition first_row {A} (col : option (list (list A))) : list A :=
  match col with
  | Some (row :: _) => row
  | _ => []
  end.

Definition search_POST (collection : Collection) (b : SearchBody)
  : result SearchResponse :=
  match sb_type b with
  | SText =>
      let* result := get_records collection
          (mkGetParams None (Some (sb_limit b)) (sb_where b)
             (Some (JObj [("$contains", JStr (sb_query b))]))
             ["documents"; "metadatas"; "embeddings"]) in
      Ok (mkSearchResponse (records_of_get result) [])
  | SSemantic =>
      let* result := query collection
          (mkQueryParams [sb_query b] (sb_limit b) (sb_where b)
             ["documents"; "metadatas"; "distances"]) in
      let ids := match qr_ids result with row :: _ => row | [] => [] end in
      let documents := first_row (qr_documents result) in
      let metadatas := first_row (qr_metadatas result) in
      let dists := first_row (qr_distances result) in
      let results := map_index (fun index id =>
          mkChromaRecord id (cell0 documents index) (cell0 metadatas index) None)
          0 ids in
      Ok (mkSearchResponse results dists)
  end.

(** ** A list-backed collection

    The [chromadb] client is not part of the repository; this is the
    behaviour of a collection the routes rely on: [count] is the number of
    stored records, [get] selects the records matching [where] and
    [whereDocument] and returns the [offset]/[limit] window of them, [query]
    returns the records matching [where] in the order of an external
    nearest-neighbour ranking [rank]. *)

Record StoredRecord : Type := mkStoredRecord {
  st_id : string;
  st_document : option string;
  st_metadata : option Metadata;
  st_embedding : option (list jsnum)
}.

Definition jsnum_compare (a b : jsnum) : comparison :=
  match a, b with
  | NDec m e, NDec m' e' =>
      let d := Z.min e e' in
      Z.compare (m * 10 ^ (e - d)) (m' * 10 ^ (e' - d))
  | NInf x, NInf y =>
      match x, y with
      | true, false => Lt | false, true => Gt | _, _ => Eq
      end
  | NInf true, _ => Lt
  | NInf false, _ => Gt
  | _, NInf true => Gt
  | _, NInf false => Lt
  end.

Definition prim_eqb (a b : json) : bool :=
  match a, b with
  | JStr x, JStr y => String.eqb x y
  | JNum x, JNum y => match jsnum_compare x y with Eq => true | _ => false end
  | JBool x, JBool y => Bool.eqb x y
  | _, _ => false
  end.

Definition num_cmp (x arg : json) (ok : comparison -> bool) : bool :=
  match x, arg with
  | JNum a, JNum b => ok (jsnum_compare a b)
  | _, _ => false
  end.

(** One field condition [{ $op: arg }], or a bare value for [$eq]; a record
    without the field matches no condition. *)
Definition field_matches (x : json) (cond : json) : bool :=
  match x with
  | JUndefined => false
  | _ =>
      match cond with
      | JObj [(op, arg)] =>
          if String.eqb op "$eq" then prim_eqb x arg
          else if String.eqb op "$ne" then negb (prim_eqb x arg)
          else if String.eqb op "$gt" then num_cmp x arg (fun c => match c with Gt => true | _ => false end)
          else if String.eqb op "$gte" then num_cmp x arg (fun c => match c with Lt => false | _ => true end)
          else if String.eqb op "$lt" then num_cmp x arg (fun c => match c with Lt => true | _ => false end)
          else if String.eqb op "$lte" then num_cmp x arg (fun c => match c with Gt => false | _ => true end)
          else if String.eqb op "$in" then
            match arg with JArr vs => existsb (prim_eqb x) vs | _ => false end
          else if String.eqb op "$nin" then
            match arg with JArr vs => negb (existsb (prim_eqb x) vs) | _ => false end
          else false
      | JObj _ | JArr _ | JNull | JUndefined => false
      | _ => prim_eqb x cond
      end
  end.

Fixpoint chroma_matches (md : Metadata) (w : json) : bool :=
  match w with
  | JObj [(k, v)] =>
      if String.eqb k "$and" then
        match v with JArr ws => forallb (chroma_matches md) ws | _ => false end
      else if String.eqb k "$or" then
        match v with JArr ws => existsb (chroma_matches md) ws | _ => false end
      else field_matches (assoc_get md k) v
  | _ => false
  end.

Definition where_ok (w : option json) (r : StoredRecord) : bool :=
  match w with
  | None => true
  | Some w' =>
      match st_metadata r with
      | Some md => chroma_matches md w'
      | None => false
      end
  end.

Definition where_document_ok (w : option json) (r : StoredRecord) : bool :=
  match w with
  | Some (JObj [(op, JStr q)]) =>
      if String.eqb op "$contains" then
        match st_document r with
        | Some d => match String.index 0 q d with Some _ => true | None => false end
        | None => false
        end
      else false
  | Some _ => false
  | None => true
  end.

Definition column {A} (include : list string) (name : string) (xs : list A)
  : option (list A) :=
  if existsb (String.eqb name) include then Some xs else None.

Definition list_get (recs : list StoredRecord) (p : GetParams) : GetResult :=
  let selected :=
    filter (fun r => where_ok (gp_where p) r && where_document_ok (gp_whereDocument p) r)
      recs in
  let from := skipn (match gp_offset p with Some o => Z.to_nat o | None => 0 end) selected in
  let window :=
    match gp_limit p with Some l => firstn (Z.to_nat l) from | None => from end in
  mkGetResult (map st_id window)
    (column (gp_include p) "documents" (map st_document window))
    (column (gp_include p) "metadatas" (map st_metadata window))
    (column (gp_include p) "embeddings" (map st_embedding window)).

Definition list_query (rank : string -> list StoredRecord -> list (StoredRecord * jsnum))
    (recs : list StoredRecord) (p : QueryParams) : QueryResult :=
  let selected := filter (where_ok (qp_where p)) recs in
  let rows := map (fun q => firstn (Z.to_nat (qp_nResults p)) (rank q selected))
                (qp_queryTexts p) in
  let inc := qp_include p in
  mkQueryResult (map (map (fun x => st_id (fst x))) rows)
    (column inc "documents" (map (map (fun x => st_document (fst x))) rows))
    (column inc "metadatas" (map (map (fun x => st_metadata (fst x))) rows))
    (column inc "distances" (map (map snd) rows))
    (column inc "embeddings" (map (map (fun x => st_embedding (fst x))) rows)).

Definition list_collection (rank : string -> list StoredRecord -> list (StoredRecord * jsnum))
    (recs : list StoredRecord) : Collection :=
  mkCollection (Ok (length recs)) (fun p => Ok (list_get recs p))
    (fun p => Ok (list_query rank recs p)).

(** ** Requests issued by the hooks *)

Definition hex_digit (n : nat) : ascii :=
  ascii_of_nat (if Nat.ltb n 10 then 48 + n else 55 + n).

Definition percent (n : nat) : list ascii :=
  ["%"%char; hex_digit (Nat.div n 16); hex_digit (Nat.modulo n 16)].

Definition uri_unreserved (c : ascii) : bool :=
  let n := nat_of_ascii c in
  (Nat.leb 48 n && Nat.leb n 57) || (Nat.leb 65 n && Nat.leb n 90)
  || (Nat.leb 97 n && Nat.leb n 122)
  || existsb (Ascii.eqb c) (list_ascii_of_string "-_.!~*'()").

(** [encodeURIComponent]; a code unit from 128 to 255 is encoded as its
    two UTF-8 bytes. *)
Definition encode_char (c : ascii) : list ascii :=
  let n := nat_of_ascii c in
  if uri_unreserved c then [c]
  else if Nat.ltb n 128 then percent n
  else app (percent (192 + Nat.div n 64)) (percent (128 + Nat.modulo n 64)).

Definition encodeURIComponent (s : string) : string :=
  string_of_list_ascii (concat (map encode_char (list_ascii_of_string s))).

Fixpoint after_question (l : list ascii) : list ascii :=
  match l with
  | [] => []
  | c :: rest => if Ascii.eqb c "?" then rest else after_question rest
  end.

Fixpoint split_first_eq (l : list ascii) : list ascii * list ascii :=
  match l with
  | [] => ([], [])
  | c :: rest =>
      if Ascii.eqb c "=" then ([], rest)
      else let (n, v) := split_first_eq rest in (c :: n, v)
  end.

(** The name/value pairs of [new URL(url).searchParams], in order; names and
    values are kept percent-encoded (the names the hooks use need no
    decoding). *)
Definition searchParams (url : string) : list (string * string) :=
  map (fun part => let (n, v) := split_first_eq part in
                   (string_of_list_ascii n, string_of_list_ascii v))
    (filter (fun part => match part with [] => false | _ => true end)
       (split_aux "&" [] (after_question (list_ascii_of_string url)))).

(** [searchParams.get(name)] *)
Definition searchParams_get (url : string) (name : string) : option string :=
  option_map snd (find (fun p => String.eqb (fst p) name) (searchParams url)).

Record Connection : Type := mkConnection {
  host : string;
  port : nat
}.

Record FetchRequest : Type := mkFetchRequest {
  req_url : string;
  req_method : string;
  req_headers : list (string * string);
  req_body : option json
}.

(** The object [page.tsx] passes to [useRecords]: [{ collection, where }].
    The hook destructures [collection] (and the absent [initialPage],
    [initialPageSize]) only. *)
Record UseRecordsArgs : Type := mkUseRecordsArgs {
  ur_collection : string;
  ur_where : option json
}.

(** The request of [fetchRecords] in [use-records.ts]; [None] is the early
    return on a missing collection or connection. *)
Definition records_request (args : UseRecordsArgs) (connection : option Connection)
    (page pageSize : nat) : option FetchRequest :=
  match connection with
  | None => None
  | Some conn =>
      if String.eqb (ur_collection args) "" then None else
      Some (mkFetchRequest
        ("/api/records?collection=" ++ encodeURIComponent (ur_collection args)
         ++ "&page=" ++ string_of_nat page ++ "&pageSize=" ++ string_of_nat pageSize)
        "GET"
        [("X-Chroma-Host", host conn); ("X-Chroma-Port", string_of_nat (port conn))]
        None)
  end.

Record EmbeddingConfig : Type := mkEmbeddingConfig {
  provider : string;
  apiKey : string;
  model : string
}.

(** [useSearch({ collection, limit = 20 })] *)
Record UseSearchArgs : Type := mkUseSearchArgs {
  us_collection : string;
  us_limit : nat
}.

Definition search_type_string (t : SearchType) : string :=
  match t with SText => "text" | SSemantic => "semantic" end.

(** The request of [search] in [use-search.ts] ([src/unnamed/part_012]
    adds the embedding headers; the body is the same in both files);
    [None] is an early return. *)
Definition search_request (args : UseSearchArgs) (connection : option Connection)
    (embedding : option EmbeddingConfig) (query : string) (type : SearchType)
  : option FetchRequest :=
  match connection with
  | None => None
  | Some conn =>
      if String.eqb (us_collection args) "" then None else
      if String.eqb (trim query) "" then None else
      let base := [("Content-Type", "application/json");
                   ("X-Chroma-Host", host conn);
                   ("X-Chroma-Port", string_of_nat (port conn))] in
      let headers :=
        match type, embedding with
        | SSemantic, Some e =>
            if String.eqb (provider e) "none" then base else
            app base
              (app [("X-Embedding-Provider", provider e);
                    ("X-Embedding-Api-Key", apiKey e)]
                 (if String.eqb (model e) "" then []
                  else [("X-Embedding-Model", model e)]))
        | _, _ => base
        end in
      Some (mkFetchRequest "/api/search" "POST" headers
        (Some (JObj [("collection", JStr (us_collection args));
                     ("query", JStr query);
                     ("type", JStr (search_type_string type));
                     ("limit", JNum (NDec (Z.of_nat (us_limit args)) 0))])))
  end.

(** [page.tsx] wires the filter state into the two hooks this way. *)
Definition home_browse_request (fs : FiltersState) (collection : string)
    (connection : option Connection) (page pageSize : nat) : option FetchRequest :=
  records_request (mkUseRecordsArgs collection (whereClause fs)) connection page pageSize.

Definition home_search_request (fs : FiltersState) (collection : string)
    (connection : option Connection) (embedding : option EmbeddingConfig)
    (query : string) (type : SearchType) : option FetchRequest :=
  search_request (mkUseSearchArgs collection 20) connection embedding query type.

(** ** The [useRecords] hook as a state machine

    The state cells of the hook, the dependency arrays React compared at
    the last commit, and the fetches in flight.  [fetchRecords] is
    re-created, and its effect re-run, when [collection], [page] or
    [pageSize] change (the connection is fixed here); the reset effect
    re-runs when [collection] or [pageSize] change.  A fetch in flight
    keeps the request built from the values it captured. *)

Record BrowseState : Type := mkBrowseState {
  bs_args : UseRecordsArgs;
  bs_connection : option Connection;
  bs_records : list ChromaRecord;
  bs_total : nat;
  bs_page : nat;
  bs_pageSize : nat;
  bs_isLoading : bool;
  bs_error : option string;
  bs_fetch_deps : option (string * nat * nat);
  bs_reset_deps : option (string * nat);
  bs_inflight : list (nat * FetchRequest);
  bs_next_req : nat
}.

Definition set_args (s : BrowseState) (a : UseRecordsArgs) : BrowseState :=
  mkBrowseState a (bs_connection s) (bs_records s) (bs_total s) (bs_page s)
    (bs_pageSize s) (bs_isLoading s) (bs_error s) (bs_fetch_deps s)
    (bs_reset_deps s) (bs_inflight s) (bs_next_req s).

Definition set_page (s : BrowseState) (n : nat) : BrowseState :=
  mkBrowseState (bs_args s) (bs_connection s) (bs_records s) (bs_total s) n
    (bs_pageSize s) (bs_isLoading s) (bs_error s) (bs_fetch_deps s)
    (bs_reset_deps s) (bs_inflight s) (bs_next_req s).

Definition set_pageSize (s : BrowseState) (n : nat) : BrowseState :=
  mkBrowseState (bs_args s) (bs_connection s) (bs_records s) (bs_total s)
    (bs_page s) n (bs_isLoading s) (bs_error s) (bs_fetch_deps s)
    (bs_reset_deps s) (bs_inflight s) (bs_next_req s).

(** [fetchRecords()] up to its first [await]. *)
Definition fetchRecords (s : BrowseState) : BrowseState :=
  match records_request (bs_args s) (bs_connection s) (bs_page s) (bs_pageSize s) with
  | None =>
      mkBrowseState (bs_args s) (bs_connection s) [] 0 (bs_page s) (bs_pageSize s)
        (bs_isLoading s) (bs_error s) (bs_fetch_deps s) (bs_reset_deps s)
        (bs_inflight s) (bs_next_req s)
  | Some req =>
      mkBrowseState (bs_args s) (bs_connection s) (bs_records s) (bs_total s)
        (bs_page s) (bs_pageSize s) true None (bs_fetch_deps s) (bs_reset_deps s)
        (app (bs_inflight s) [(bs_next_req s, req)]) (S (bs_next_req s))
  end.

Definition fetch_deps (s : BrowseState) : string * nat * nat :=
  (ur_collection (bs_args s), bs_page s, bs_pageSize s).

Definition reset_deps (s : BrowseState) : string * nat :=
  (ur_collection (bs_args s), bs_pageSize s).

Definition deps3_eqb (a : option (string * nat * nat)) (b : string * nat * nat) : bool :=
  match a, b with
  | Some (c, p, z), (c', p', z') => String.eqb c c' && Nat.eqb p p' && Nat.eqb z z'
  | None, _ => false
  end.

Definition deps2_eqb (a : option (string * nat)) (b : string * nat) : bool :=
  match a, b with
  | Some (c, z), (c', z') => String.eqb c c' && Nat.eqb z z'
  | None, _ => false
  end.

(** The two effects of the hook, in their order in the source. *)
Definition run_effects (s : BrowseState) : BrowseState :=
  let s1 :=
    if deps3_eqb (bs_fetch_deps s) (fetch_deps s) then s
    else fetchRecords
           (mkBrowseState (bs_args s) (bs_connection s) (bs_records s) (bs_total s)
              (bs_page s) (bs_pageSize s) (bs_isLoading s) (bs_error s)
              (Some (fetch_deps s)) (bs_reset_deps s) (bs_inflight s) (bs_next_req s)) in
  if deps2_eqb (bs_reset_deps s1) (reset_deps s1) then s1
  else
    mkBrowseState (bs_args s1) (bs_connection s1) (bs_records s1) (bs_total s1)
      1 (bs_pageSize s1) (bs_isLoading s1) (bs_error s1) (bs_fetch_deps s1)
      (Some (reset_deps s1)) (bs_inflight s1) (bs_next_req s1).

(** A commit; [setPage(1)] from the reset effect re-renders (unless the
    page was already 1) and the effects run once more. *)
Definition commit (s : BrowseState) : BrowseState :=
  let s1 := run_effects s in
  if Nat.eqb (bs_page s1) (bs_page s) then s1 else run_effects s1.

(** The first render of [useRecords(args)] with the default
    [initialPage = 1] and [initialPageSize = 10]. *)
Definition useRecords_mount (args : UseRecordsArgs) (connection : option Connection)
  : BrowseState :=
  commit (mkBrowseState args connection [] 0 1 10 false None None None [] 0).

Fixpoint take_inflight (k : nat) (l : list (nat * FetchRequest))
  : option FetchRequest * list (nat * FetchRequest) :=
  match l with
  | [] => (None, [])
  | (k', r) :: rest =>
      if Nat.eqb k k' then (Some r, rest)
      else let (found, rest') := take_inflight k rest in (found, (k', r) :: rest')
  end.

(** The server's answer to a browse request: [data.records], [data.total]
    or the error message. *)
Definition Server : Type := FetchRequest -> result (list ChromaRecord * nat).

(** The rest of [fetchRecords] for the fetch [k]: its response is
    applied with no check of which request is the latest. *)
Definition complete (server : Server) (s : BrowseState) (k : nat) : BrowseState :=
  match take_inflight k (bs_inflight s) with
  | (None, _) => s
  | (Some req, rest) =>
      let '(recs, tot, err) :=
        match server req with
        | Ok (rs, t) => (rs, t, bs_error s)
        | Throw msg => ([], 0, Some msg)
        end in
      mkBrowseState (bs_args s) (bs_connection s) recs tot (bs_page s) (bs_pageSize s)
        false err (bs_fetch_deps s) (bs_reset_deps s) rest (bs_next_req s)
  end.

Inductive BrowseEvent : Type :=
| SetCollection (c : string)   (** [selectedCollection] in [page.tsx] *)
| SetWhere (w : option json)   (** [whereClause] in [page.tsx] *)
| SetPage (n : nat)
| SetPageSize (n : nat)
| Complete (k : nat).          (** the fetch [k] settles *)

Definition browse_step (server : Server) (s : BrowseState) (ev : BrowseEvent)
  : BrowseState :=
  match ev with
  | SetCollection c => commit (set_args s (mkUseRecordsArgs c (ur_where (bs_args s))))
  | SetWhere w => commit (set_args s (mkUseRecordsArgs (ur_collection (bs_args s)) w))
  | SetPage n => commit (set_page s n)
  | SetPageSize n => commit (set_pageSize s n)
  | Complete k => commit (complete server s k)
  end.

Definition browse_run (server : Server) (s : BrowseState) (evs : list BrowseEvent)
  : BrowseState :=
  fold_left (browse_step server) evs s.

(** The dependency arrays agree with the current values: the state after
    any commit. *)
Definition committed (s : BrowseState) : Prop :=
  bs_fetch_deps s = Some (fetch_deps s) /\ bs_reset_deps s = Some (reset_deps s).

(** ** Metadata sampling ([src/unnamed/part_007], [GET /api/metadata])

    The metadata values of a [collection.get] response as JavaScript values:
    primitives by value, arrays and objects by reference into a heap (each
    array or object decoded from a response is a separate allocation). *)

Inductive mval : Type :=
| MPrim (v : json)   (** [undefined], [null], a boolean, number or string *)
| MRef (loc : nat).

Definition Heap : Type := list (nat * json).

Fixpoint heap_get (h : Heap) (l : nat) : json :=
  match h with
  | [] => JUndefined
  | (l', v) :: rest => if Nat.eqb l l' then v else heap_get rest l
  end.

(** [detectType] *)
Definition detectType (h : Heap) (v : mval) : string :=
  match v with
  | MPrim JNull => "null"
  | MPrim JUndefined => "undefined"
  | MPrim (JBool _) => "boolean"
  | MPrim (JNum _) => "number"
  | MPrim (JStr _) => "string"
  | MPrim (JArr _) | MPrim (JObj _) => "object"
  | MRef l => match heap_get h l with JArr _ => "array" | _ => "object" end
  end.

Definition jsnum_same (a b : jsnum) : bool :=
  match jsnum_compare a b with Eq => true | _ => false end.

(** SameValueZero, the equality of [Set]: primitives by value, arrays and
    objects by reference. *)
Definition same_value_zero (a b : mval) : bool :=
  match a, b with
  | MRef x, MRef y => Nat.eqb x y
  | MPrim JUndefined, MPrim JUndefined => true
  | MPrim JNull, MPrim JNull => true
  | MPrim (JBool x), MPrim (JBool y) => Bool.eqb x y
  | MPrim (JNum x), MPrim (JNum y) => jsnum_same x y
  | MPrim (JStr x), MPrim (JStr y) => String.eqb x y
  | _, _ => false
  end.

(** [set.add(x)] on a [Set<string>] kept in insertion order. *)
Definition add_type (types : list string) (t : string) : list string :=
  if existsb (String.eqb t) types then types else app types [t].

(** [set.add(x)] on a [Set<unknown>] kept in insertion order. *)
Definition add_sample (samples : list mval) (v : mval) : list mval :=
  if existsb (same_value_zero v) samples then samples else app samples [v].

(** The [fieldMap] entry of a key: [types] and [sampleValues]. *)
Record FieldInfo : Type := mkFieldInfo {
  types : list string;
  sampleValues : list mval
}.

Definition FieldMap : Type := list (string * FieldInfo).

Fixpoint fm_get (fm : FieldMap) (k : string) : option FieldInfo :=
  match fm with
  | [] => None
  | (k', i) :: rest => if String.eqb k k' then Some i else fm_get rest k
  end.

Fixpoint fm_set (fm : FieldMap) (k : string) (i : FieldInfo) : FieldMap :=
  match fm with
  | [] => [(k, i)]
  | (k', i') :: rest => if String.eqb k k' then (k', i) :: rest else (k', i') :: fm_set rest k i
  end.

(** The body of the inner loop for one [[key, value]] entry. *)
Definition observe (h : Heap) (fm : FieldMap) (kv : string * mval) : FieldMap :=
  let (key, v) := kv in
  let fld := match fm_get fm key with
             | Some i => i
             | None => mkFieldInfo [] []
             end in
  let types' := add_type (types fld) (detectType h v) in
  let samples' :=
    if Nat.ltb (length (sampleValues fld)) 5 then add_sample (sampleValues fld) v
    else sampleValues fld in
  fm_set fm key (mkFieldInfo types' samples').

(** The outer loop over [result.metadatas]; [null] metadata is skipped. *)
Definition analyze (h : Heap) (metadatas : list (option (list (string * mval))))
  : FieldMap :=
  fold_left (fun fm md =>
      match md with
      | None => fm
      | Some entries => fold_left (observe h) entries fm
      end) metadatas [].

(** The response [fields] before the final [fields.sort] by
    [localeCompare] of the names. *)
Record MetadataField : Type := mkMetadataField {
  mf_name : string;
  mf_type : string;
  mf_sampleValues : list mval
}.

Fixpoint join (sep : string) (l : list string) : string :=
  match l with
  | [] => ""
  | [x] => x
  | x :: rest => x ++ sep ++ join sep rest
  end.

Definition fields_of (fm : FieldMap) : list MetadataField :=
  map (fun '(name, data) =>
         let type := match types data with
                     | [t] => t
                     | ts => join " | " ts
                     end in
         mkMetadataField name type (sampleValues data)) fm.

(** ** The other operations of [useFilters] ([src/unnamed/part_013]) *)

(** [addFilter(filter)]: [{ ...filter, id: generateId() }] appended. *)
Definition addFilter (s : FiltersState) (fld : string) (op : FilterOperator) (v : json)
  : FiltersState :=
  mkFiltersState (app (filters s) [mkFilter (next_id s) fld op v]) (S (next_id s)).

(** [removeFilter(id)]: [prev.filter((f) => f.id !== id)] *)
Definition removeFilter (s : FiltersState) (i : nat) : FiltersState :=
  mkFiltersState (filter (fun f => negb (Nat.eqb (id f) i)) (filters s)) (next_id s).

(** [Partial<Omit<Filter, "id">>]: an absent key is [None]. *)
Record FilterUpdate : Type := mkFilterUpdate {
  upd_field : option string;
  upd_operator : option FilterOperator;
  upd_value : option json
}.

(** [{ ...f, ...updates }] *)
Definition apply_update (f : Filter) (u : FilterUpdate) : Filter :=
  mkFilter (id f)
    (match upd_field u with Some x => x | None => field f end)
    (match upd_operator u with Some x => x | None => operator f end)
    (match upd_value u with Some x => x | None => value f end).

(** [updateFilter(id, updates)] *)
Definition updateFilter (s : FiltersState) (i : nat) (u : FilterUpdate) : FiltersState :=
  mkFiltersState
    (map (fun f => if Nat.eqb (id f) i then apply_update f u else f) (filters s))
    (next_id s).

(** [clearFilters()] *)
Definition clearFilters (s : FiltersState) : FiltersState :=
  mkFiltersState [] (next_id s).

(** ** Reading requests on the server ([src/lib/embedding.ts], the routes) *)




Local Set Warnings "-abstract-large-number".

(** JavaScript [WhiteSpace] and [LineTerminator] code points. *)
Definition is_js_space_cp (n : nat) : bool :=
  (Nat.leb 9 n && Nat.leb n 13) || Nat.eqb n 32 || Nat.eqb n 160 || Nat.eqb n 5760
  || (Nat.leb 8192 n && Nat.leb n 8202) || Nat.eqb n 8232 || Nat.eqb n 8233
  || Nat.eqb n 8239 || Nat.eqb n 8287 || Nat.eqb n 12288 || Nat.eqb n 65279.

Fixpoint trim_start_cp (l : list nat) : list nat :=
  match l with
  | c :: rest => if is_js_space_cp c then trim_start_cp rest else l
  | [] => []
  end.

Fixpoint span_digits_cp (l : list nat) : list nat * list nat :=
  match l with
  | c :: rest =>
      if Nat.leb 48 c && Nat.leb c 57 then
        let (ds, r) := span_digits_cp rest in (c :: ds, r)
      else ([], l)
  | [] => ([], [])
  end.

Definition digits_value_cp (ds : list nat) : Z :=
  fold_left (fun acc c => (acc * 10 + Z.of_nat (c - 48))%Z) ds 0%Z.

(** [parseInt(s, 10)] on the code points of [s]; [None] is [NaN]. The value
    is the exact integer (JavaScript rounds it to a double above 2^53). *)
Definition parseInt10_cp (l : list nat) : option Z :=
  let l1 := trim_start_cp l in
  let '(sign, r) :=
    match l1 with
    | c :: r' => if Nat.eqb c 45 then ((-1)%Z, r')
                 else if Nat.eqb c 43 then (1%Z, r') else (1%Z, l1)
    | [] => (1%Z, l1)
    end in
  match span_digits_cp r with
  | ([], _) => None
  | (ds, _) => Some (sign * digits_value_cp ds)%Z
  end.

Definition code_points (s : string) : list nat := map nat_of_ascii (list_ascii_of_string s).



(** The UTF-8 encoding of a string of code units below 256. *)
Definition utf8_encode_unit (n : nat) : list nat :=
  if Nat.ltb n 128 then [n] else [192 + Nat.div n 64; 128 + Nat.modulo n 64].

Definition utf8_encode (s : string) : list nat := concat (map utf8_encode_unit (code_points s)).

Definition hex_value (n : nat) : option nat :=
  if Nat.leb 48 n && Nat.leb n 57 then Some (n - 48)
  else if Nat.leb 65 n && Nat.leb n 70 then Some (n - 55)
  else if Nat.leb 97 n && Nat.leb n 102 then Some (n - 87)
  else None.

(** Percent-decoding of a byte sequence (URL standard). *)
Fixpoint percent_decode (l : list nat) : list nat :=
  match l with
  | [] => []
  | c :: rest =>
      if Nat.eqb c 37 then
        match rest with
        | a :: b :: rest' =>
            match hex_value a, hex_value b with
            | Some x, Some y => (16 * x + y) :: percent_decode rest'
            | _, _ => c :: percent_decode rest
            end
        | _ => c :: percent_decode rest
        end
      else c :: percent_decode rest
  end.

(** The UTF-8 decoder of the Encoding standard (errors replaced by U+FFFD):
    its state is (code point, bytes seen, bytes needed, lower, upper). *)
Record Utf8State : Type := mkUtf8State {
  u_cp : nat; u_seen : nat; u_needed : nat; u_lower : nat; u_upper : nat
}.

Definition utf8_init : Utf8State := mkUtf8State 0 0 0 128 191.

(** One byte: the code points it emits, whether it is processed again
    (prepended back), and the next state. *)
Definition utf8_step (st : Utf8State) (b : nat) : list nat * bool * Utf8State :=
  if Nat.eqb (u_needed st) 0 then
    if Nat.leb b 127 then ([b], false, st)
    else if Nat.leb 194 b && Nat.leb b 223 then
      ([], false, mkUtf8State (b - 192) 0 1 128 191)
    else if Nat.leb 224 b && Nat.leb b 239 then
      ([], false, mkUtf8State (b - 224) 0 2
                    (if Nat.eqb b 224 then 160 else 128)
                    (if Nat.eqb b 237 then 159 else 191))
    else if Nat.leb 240 b && Nat.leb b 244 then
      ([], false, mkUtf8State (b - 240) 0 3
                    (if Nat.eqb b 240 then 144 else 128)
                    (if Nat.eqb b 244 then 143 else 191))
    else ([65533], false, st)
  else if negb (Nat.leb (u_lower st) b && Nat.leb b (u_upper st)) then
    ([65533], true, utf8_init)
  else
    let cp := u_cp st * 64 + (b - 128) in
    let seen := S (u_seen st) in
    if Nat.eqb seen (u_needed st) then ([cp], false, utf8_init)
    else ([], false, mkUtf8State cp seen (u_needed st) 128 191).

Fixpoint utf8_decode_aux (fuel : nat) (st : Utf8State) (l : list nat) : list nat :=
  match fuel with
  | O => []
  | S fuel' =>
      match l with
      | [] => if Nat.eqb (u_needed st) 0 then [] else [65533]
      | b :: rest =>
          let '(out, again, st') := utf8_step st b in
          app out (utf8_decode_aux fuel' st' (if again then b :: rest else rest))
      end
  end.

(** A byte is processed at most twice. *)
Definition utf8_decode (l : list nat) : list nat :=
  utf8_decode_aux (S (2 * length l)) utf8_init l.

(** The decoding of a name or value of [application/x-www-form-urlencoded]:
    [+] becomes a space, then percent-decoding and UTF-8 decoding. *)
Definition form_decode (s : string) : list nat :=
  utf8_decode (percent_decode
    (map (fun b => if Nat.eqb b 43 then 32 else b) (utf8_encode s))).

Fixpoint nat_list_eqb (a b : list nat) : bool :=
  match a, b with
  | [], [] => true
  | x :: a', y :: b' => Nat.eqb x y && nat_list_eqb a' b'
  | _, _ => false
  end.

(** [new URL(url).searchParams.get(name)], as code points. *)
Definition searchParams_get_decoded (url : string) (name : string) : option (list nat) :=
  option_map (fun p => form_decode (snd p))
    (find (fun p => nat_list_eqb (form_decode (fst p)) (code_points name))
       (searchParams url)).

(** The query of [GET /api/records] as [recordsQuerySchema] reads it:
    [collection] ([get(...) || ""]), [page] and [pageSize]
    ([val ? parseInt(val, 10) : 1] or [10]); [None] is [NaN]. *)
Record RecordsParams : Type := mkRecordsParams {
  p_collection : list nat;
  p_page : option Z;
  p_pageSize : option Z
}.

Definition records_params (url : string) : RecordsParams :=
  let collection := match searchParams_get_decoded url "collection" with
                    | Some v => v | None => [] end in
  let num (name : string) (default : Z) :=
    match searchParams_get_decoded url name with
    | None | Some [] => Some default
    | Some v => parseInt10_cp v
    end in
  mkRecordsParams collection (num "page" 1%Z) (num "pageSize" 10%Z).

(** ** [Pagination] ([src/unnamed/part_006]) and the page handlers of
    [page.tsx] *)

(** [Math.ceil(total / pageSize)] for a positive [pageSize]: the ceiling of
    a quotient is minus the floor of minus it. *)
Definition totalPages (total pageSize : Z) : Z := Z.opp (Z.div (Z.opp total) pageSize).

Definition canGoPrevious (page : Z) : bool := Z.ltb 1 page.

Definition canGoNext (page pageSize total : Z) : bool := Z.ltb page (totalPages total pageSize).

Definition startRecord (page pageSize total : Z) : Z :=
  if Z.eqb total 0 then 0 else ((page - 1) * pageSize + 1)%Z.

Definition endRecord (page pageSize total : Z) : Z := Z.min (page * pageSize) total.

Definition handlePreviousPage (page : Z) (isSearchActive : bool) : Z :=
  if Z.ltb 1 page && negb isSearchActive then (page - 1)%Z else page.

Definition handleNextPage (page total pageSize : Z) (isSearchActive : bool) : Z :=
  if Z.ltb page (totalPages total pageSize) && negb isSearchActive then (page + 1)%Z
  else page.

(** The invariant of the metadata route's loop after the entries [seen]
    have been observed. *)
Definition catalog_of (h : Heap) (seen : list (string * mval)) (fm : FieldMap) : Prop :=
  NoDup (map fst fm) /\
  (forall k, In k (map fst fm) <-> exists v, In (k, v) seen) /\
  (forall k i, fm_get fm k = Some i ->
     NoDup (types i) /\
     forall t, In t (types i) <-> exists v, In (k, v) seen /\ detectType h v = t).

(** ** [valueToString] ([src/unnamed/part_004]) *)

(** The decimal digits of a natural number given as [Z]; [log2 m + 1]
    steps are enough. *)
Fixpoint Z_digits_rev (fuel : nat) (m : Z) : list ascii :=
  match fuel with
  | O => []
  | S f =>
      let d := ascii_of_nat (48 + Z.to_nat (Z.modulo m 10)) in
      if Z.ltb m 10 then [d] else d :: Z_digits_rev f (Z.div m 10)
  end.

Definition Z_digits (m : Z) : list ascii :=
  rev (Z_digits_rev (S (Z.to_nat (Z.log2 m))) m).

(** Drops the zeros at the head of [l] (the trailing zeros of a reversed
    digit string), counting them on [n]. *)
Fixpoint drop_zeros (l : list ascii) (n : Z) : list ascii * Z :=
  match l with
  | c :: rest => if Ascii.eqb c "0" then drop_zeros rest (n + 1) else (l, n)
  | [] => ([], n)
  end.

Definition exponent_string (x : Z) : list ascii :=
  (if Z.ltb x 0 then "-"%char else "+"%char) :: Z_digits (Z.abs x).

(** [Number::toString(x)] (radix 10) on the exact value of [x]: [s] are the
    digits of [x] without trailing zeros ([k] of them) and [x] is
    [0.s * 10^n]. *)
Definition number_toString (x : jsnum) : string :=
  match x with
  | NInf false => "Infinity"
  | NInf true => "-Infinity"
  | NDec m e =>
      if Z.eqb m 0 then "0" else
      let '(rds, e1) := drop_zeros (rev (Z_digits (Z.abs m))) e in
      let s := rev rds in
      let k := Z.of_nat (length s) in
      let n := (e1 + k)%Z in
      let body :=
        if Z.leb k n && Z.leb n 21 then app s (repeat "0"%char (Z.to_nat (n - k)))
        else if Z.ltb 0 n && Z.leb n 21 then
          app (firstn (Z.to_nat n) s) ("."%char :: skipn (Z.to_nat n) s)
        else if Z.ltb (-6) n && Z.leb n 0 then
          "0"%char :: "."%char :: app (repeat "0"%char (Z.to_nat (- n))) s
        else
          match s with
          | [d] => d :: "e"%char :: exponent_string (n - 1)
          | d :: rest => d :: "."%char :: app rest ("e"%char :: exponent_string (n - 1))
          | [] => []
          end in
      string_of_list_ascii (if Z.ltb m 0 then "-"%char :: body else body)
  end.

(** [String(v)] *)
Fixpoint js_String (v : json) : string :=
  match v with
  | JUndefined => "undefined"
  | JNull => "null"
  | JBool b => if b then "true" else "false"
  | JNum x => number_toString x
  | JStr s => s
  | JArr l =>
      join "," (map (fun x => match x with
                              | JUndefined | JNull => ""
                              | _ => js_String x
                              end) l)
  | JObj _ => "[object Object]"
  end.

(** [valueToString(value)]: [""] for [undefined], [value.join(", ")] for an
    array, [String(value)] otherwise. *)
Definition valueToString (v : json) : string :=
  match v with
  | JUndefined => ""
  | JArr l =>
      join ", " (map (fun x => match x with
                               | JUndefined | JNull => ""
                               | _ => js_String x
                               end) l)
  | _ => js_String v
  end.

(** A list of decimal digit characters. *)
Definition all_digits (l : list ascii) : Prop := Forall (fun c => is_decimal_digit c = true) l.

(** The characters [number_toString] writes for a finite number. *)
Definition number_char (c : ascii) : bool :=
  is_decimal_digit c || Ascii.eqb c "." || Ascii.eqb c "e"
  || Ascii.eqb c "+" || Ascii.eqb c "-".

(** A list that starts with a decimal digit. *)
Definition digit_head (l : list ascii) : Prop :=
  match l with d :: _ => is_decimal_digit d = true | [] => False end.

(** ** Helpers for the claims *)

(** A filter without its generated id. *)
Definition strip (f : Filter) : string * FilterOperator * json :=
  (field f, operator f, value f).

(** A single predicate with one supported operator. *)
Definition is_supported_predicate (c : json) : bool :=
  match c with
  | JObj [(_, JObj [(op, _)])] =>
      match op_of_key op with Some _ => true | None => false end
  | _ => false
  end.

(** Percent-decoding of a sequence of whole escapes and plain bytes. *)
Fixpoint pd_chunks (l : list nat) : option (list nat) :=
  match l with
  | [] => Some []
  | c :: rest =>
      if Nat.eqb c 37 then
        match rest with
        | a :: b :: rest' =>
            match hex_value a, hex_value b, pd_chunks rest' with
            | Some x, Some y, Some d => Some ((16 * x + y) :: d)
            | _, _, _ => None
            end
        | _ => None
        end
      else option_map (cons c) (pd_chunks rest)
  end.

(** The UTF-8 decoder run over whole sequences, with no byte processed
    twice. *)
Fixpoint utf8_run (st : Utf8State) (l : list nat) : option (list nat * Utf8State) :=
  match l with
  | [] => Some ([], st)
  | b :: rest =>
      let '(out, again, st') := utf8_step st b in
      if again then None else
      match utf8_run st' rest with
      | Some (o, st'') => Some (app out o, st'')
      | None => None
      end
  end.

Definition utf8_state_eqb (a b : Utf8State) : bool :=
  Nat.eqb (u_cp a) (u_cp b) && Nat.eqb (u_seen a) (u_seen b)
  && Nat.eqb (u_needed a) (u_needed b) && Nat.eqb (u_lower a) (u_lower b)
  && Nat.eqb (u_upper a) (u_upper b).

(** Every character. *)
Definition all_ascii : list ascii := map ascii_of_nat (seq 0 256).

(** ** Inputs of the examples *)

(** A where clause with two operators on one field, and an [$and] with a
    nested [$or] group. *)
Definition multi_op_clause : json :=
  JObj [("a", JObj [("$eq", JNum (NDec 1 0)); ("$ne", JNum (NDec 2 0))])].

Definition nested_clause : json :=
  JObj [("$and", JArr [JObj [("a", JObj [("$eq", JNum (NDec 1 0))])];
                       JObj [("$or", JArr [JObj [("b", JObj [("$eq", JStr "x")])];
                                           JObj [("c", JObj [("$eq", JStr "y")])]])]])].

(** Ten stored records, three of them with [type = "text"]; each has an
    embedding. *)
Definition typed_record (i : string) (t : string) : StoredRecord :=
  mkStoredRecord i (Some ("document " ++ i)) (Some [("type", JStr t)])
    (Some [NDec 1 (-1); NDec 2 (-1)]).

Definition ten_records : list StoredRecord :=
  [typed_record "r0" "text"; typed_record "r1" "image"; typed_record "r2" "text";
   typed_record "r3" "audio"; typed_record "r4" "image"; typed_record "r5" "image";
   typed_record "r6" "text"; typed_record "r7" "audio"; typed_record "r8" "image";
   typed_record "r9" "video"].

(** A nearest-neighbour ranking keeping the collection order. *)
Definition keep_order_rank (q : string) (rs : list StoredRecord)
  : list (StoredRecord * jsnum) :=
  map (fun r => (r, NDec 0 0)) rs.

Definition type_text_filters : FiltersState :=
  mkFiltersState [mkFilter 0 "type" OpEq (JStr "text")] 1.

(** No [&] in a list of characters. *)
Definition no_amp (l : list ascii) : Prop := Forall (fun c => c <> "&"%char) l.

(** A server answering each browse request with one record whose id is
    the request's URL, and a total of 456. *)
Definition echo_server : Server :=
  fun req => Ok ([mkChromaRecord (req_url req) None None None], 456).

(** [useRecords({ collection: "docs" })] right after mounting. *)
Definition docs_mount : BrowseState :=
  useRecords_mount (mkUseRecordsArgs "docs" None) (Some (mkConnection "h" 80)).

(** The first fetch settles, the user goes to page 2 then page 3, the
    page-3 fetch settles, then the page-2 fetch settles. *)
Definition out_of_order_trace : list BrowseEvent :=
  [Complete 0; SetPage 2; SetPage 3; Complete 2; Complete 1].

(** The user goes to page 3, then a filter is added. *)
Definition filter_change_trace : list BrowseEvent :=
  [SetPage 3; SetWhere (whereClause type_text_filters)].

(** Two records whose [tags] metadata are equal arrays [["a"]], decoded
    as two separate arrays. *)
Definition tags_heap : Heap := [(0, JArr [JStr "a"]); (1, JArr [JStr "a"])].

Definition tags_metadatas : list (option (list (string * mval))) :=
  [Some [("tags", MRef 0)]; Some [("tags", MRef 1)]].

(** Each sample is SameValueZero-different from every earlier one. *)
Definition samples_distinct (l : list mval) : Prop :=
  forall pre x post, l = app pre (x :: post) ->
    existsb (same_value_zero x) pre = false.

Definition fm_ok (fm : FieldMap) : Prop :=
  forall k i, fm_get fm k = Some i ->
    length (sampleValues i) <= 5 /\ samples_distinct (sampleValues i).

(** * Filter compiler *)

Lemma assoc_get_single (k : string) (v : json) : assoc_get [(k, v)] k = v.
Proof. simpl. now rewrite String.eqb_refl. Qed.

Lemma op_of_key_op_key (o : FilterOperator) : op_of_key (op_key o) = Some o.
Proof. destruct o; reflexivity. Qed.

Lemma op_key_of_key (k : string) (o : FilterOperator) :
  op_of_key k = Some o -> op_key o = k.
Proof.
  unfold op_of_key.
  destruct (String.eqb_spec k "$eq"); [intros [= <-]; now subst|].
  destruct (String.eqb_spec k "$ne"); [intros [= <-]; now subst|].
  destruct (String.eqb_spec k "$gt"); [intros [= <-]; now subst|].
  destruct (String.eqb_spec k "$lt"); [intros [= <-]; now subst|].
  destruct (String.eqb_spec k "$in"); [intros [= <-]; now subst|].
  discriminate.
Qed.

Lemma parseSingleCondition_predicate (n : nat) (f : Filter) :
  parseSingleCondition n (predicate f)
  = Ok (Some (mkFilter n (field f) (operator f) (value f))).
Proof.
  unfold parseSingleCondition, predicate; simpl.
  rewrite String.eqb_refl; simpl.
  rewrite op_of_key_op_key; simpl.
  now rewrite String.eqb_refl.
Qed.

Lemma parseConditions_predicates (fs : list Filter) (n : nat) :
  exists fs', parseConditions n (map predicate fs) = Ok fs'
              /\ map strip fs' = map strip fs.
Proof.
  revert n; induction fs as [|f fs IH]; intros n.
  - now exists [].
  - simpl. rewrite parseSingleCondition_predicate; simpl.
    destruct (IH (S n)) as [fs' [Hp Hs]].
    rewrite Hp; simpl. exists (mkFilter n (field f) (operator f) (value f) :: fs').
    split; [reflexivity|]. simpl. now rewrite Hs.
Qed.

Lemma is_supported_predicate_two (a b : string * json) rest :
  is_supported_predicate (JObj (a :: b :: rest)) = false.
Proof.
  unfold is_supported_predicate.
  repeat match goal with |- context [match ?t with _ => _ end] => destruct t end;
  reflexivity.
Qed.

(** Conditions that are objects: each is parsed to a filter whose
    predicate is the condition itself when it is a supported predicate,
    and dropped otherwise. *)
Lemma parseSingleCondition_object (n : nat) (kv : list (string * json)) :
  exists r, parseSingleCondition n (JObj kv) = Ok r /\
  match r with
  | Some f => predicate f = JObj kv /\ is_supported_predicate (JObj kv) = true
  | None => is_supported_predicate (JObj kv) = false
  end.
Proof.
  unfold parseSingleCondition; simpl.
  destruct kv as [|[k x] [|p rest]]; simpl;
    [eexists; split; reflexivity| |
     exists None; split; [reflexivity|exact (is_supported_predicate_two (k, x) p rest)]].
  rewrite String.eqb_refl.
  destruct x as [| | | | |l|kv2]; simpl; try (eexists; split; reflexivity).
  - (* an array: its keys are indices, never operators *)
    destruct l as [|y [|z l]]; simpl; try (eexists; split; reflexivity).
  - destruct kv2 as [|[op v] [|q rest2]]; simpl; try (eexists; split; reflexivity).
    destruct (op_of_key op) as [o|] eqn:Ho; simpl.
    + rewrite String.eqb_refl. eexists; split; [reflexivity|].
      unfold predicate; simpl. now rewrite (op_key_of_key _ _ Ho).
    + eexists; split; reflexivity.
Qed.

Lemma parseConditions_objects (conds : list json) (n : nat) :
  Forall (fun c => exists kv, c = JObj kv) conds ->
  exists fs, parseConditions n conds = Ok fs
             /\ map predicate fs = filter is_supported_predicate conds.
Proof.
  revert n; induction conds as [|c conds IH]; intros n Hall.
  - now exists [].
  - inversion Hall as [|? ? [kv ->] Hrest]; subst.
    destruct (parseSingleCondition_object n kv) as [[f|] [Hp Hf]];
      cbn -[is_supported_predicate parseSingleCondition]; rewrite Hp;
      cbn -[is_supported_predicate parseSingleCondition].
    + destruct Hf as [Hpred Hsup].
      destruct (IH (S n) Hrest) as [fs [Hc Hm]].
      rewrite Hc; cbn -[is_supported_predicate]. exists (f :: fs). split; [reflexivity|].
      cbn -[is_supported_predicate]. rewrite Hsup, Hpred, Hm. reflexivity.
    + destruct (IH n Hrest) as [fs [Hc Hm]].
      exists fs. rewrite Hc, Hf. split; [reflexivity|exact Hm].
Qed.

(** C4: [filtersToWhereClause] maps [[]] to [null], [[f]] to the single
    predicate [{ f.field: { f.operator: f.value } }], and two or more
    filters to [{ $and: [...] }] with one predicate per filter, in order. *)
Theorem filtersToWhereClause_shape :
  filtersToWhereClause [] = None /\
  (forall f, filtersToWhereClause [f]
             = Some (JObj [(field f, JObj [(op_key (operator f), value f)])])) /\
  (forall f1 f2 rest,
     filtersToWhereClause (f1 :: f2 :: rest)
     = Some (JObj [("$and", JArr (map predicate (f1 :: f2 :: rest)))])).
Proof. repeat split. Qed.

(** C5: decompiling the compiled where clause ([setFiltersFromWhere] on
    [filtersToWhereClause fs]) gives back the fields, operators and values
    of [fs] in order; only the generated ids differ. *)
Theorem decompile_compile (fs : list Filter) (s : FiltersState) :
  exists s', setFiltersFromWhere s (filtersToWhereClause fs) = Ok s'
             /\ map strip (filters s') = map strip fs.
Proof.
  destruct fs as [|f [|f2 rest]].
  - now eexists.
  - simpl. unfold parseWhereClause, predicate; simpl.
    destruct (String.eqb (field f) "$and") eqn:Hand; simpl.
    + fold (predicate f). rewrite parseSingleCondition_predicate.
      now eexists.
    + fold (predicate f). rewrite parseSingleCondition_predicate.
      now eexists.
  - cbn [filtersToWhereClause setFiltersFromWhere truthy].
    unfold parseWhereClause; simpl.
    destruct (parseConditions_predicates (f :: f2 :: rest) (next_id s))
      as [fs' [Hp Hs]].
    simpl in Hp. rewrite Hp; simpl.
    eexists; split; [reflexivity|]. exact Hs.
Qed.

(** C6 (counterexample): the clause with two operators on one field is not
    kept: the filters become empty and the where clause used for querying
    becomes [null]; from the [$and] with a nested [$or], one filter chip is
    derived and the [$or] group is lost. *)
Lemma unparseable_clause_not_preserved :
  setFiltersFromWhere (mkFiltersState [] 0) (Some multi_op_clause)
    = Ok (mkFiltersState [] 0) /\
  whereClause (mkFiltersState [] 0) = None /\
  setFiltersFromWhere (mkFiltersState [] 0) (Some nested_clause)
    = Ok (mkFiltersState [mkFilter 0 "a" OpEq (JNum (NDec 1 0))] 1) /\
  whereClause (mkFiltersState [mkFilter 0 "a" OpEq (JNum (NDec 1 0))] 1)
    = Some (JObj [("a", JObj [("$eq", JNum (NDec 1 0))])]) /\
  Some (JObj [("a", JObj [("$eq", JNum (NDec 1 0))])]) <> Some nested_clause.
Proof. vm_compute. repeat split; discriminate. Qed.

(** C6 (amended): applying a raw clause never fails as unparseable: for an
    [$and] array of object conditions, the chips are exactly the supported
    predicates among the conditions, in order, and the others are dropped;
    for another object clause, there is one chip when the clause is a
    supported predicate and none otherwise.  The where clause then used
    for querying is recompiled from the chips ([whereClause]). *)
Theorem setFiltersFromWhere_keeps_supported_only :
  (forall s conds,
     Forall (fun c => exists kv, c = JObj kv) conds ->
     exists s', setFiltersFromWhere s (Some (JObj [("$and", JArr conds)])) = Ok s'
                /\ map predicate (filters s') = filter is_supported_predicate conds) /\
  (forall s kv,
     (forall conds, assoc_get kv "$and" <> JArr conds) ->
     exists s', setFiltersFromWhere s (Some (JObj kv)) = Ok s'
                /\ map predicate (filters s') = filter is_supported_predicate [JObj kv]).
Proof.
  split.
  - intros s conds Hall.
    destruct (parseConditions_objects conds (next_id s) Hall) as [fs [Hp Hm]].
    cbn [setFiltersFromWhere truthy]. unfold parseWhereClause; simpl.
    rewrite Hp; simpl. eexists; split; [reflexivity|exact Hm].
  - intros s kv Hnot.
    cbn [setFiltersFromWhere truthy]. unfold parseWhereClause; cbn [has_property bind get].
    destruct (parseSingleCondition_object (next_id s) kv) as [r [Hp Hr]].
    destruct (existsb (fun p => String.eqb (fst p) "$and") kv),
      (assoc_get kv "$and") eqn:Hg;
      try (exfalso; eapply Hnot; reflexivity);
      (rewrite Hp; destruct r as [f|]; cbn -[is_supported_predicate];
       [destruct Hr as [Hpred Hsup]; rewrite Hsup, <- Hpred | rewrite Hr];
       eexists; split; reflexivity).
Qed.

Lemma setFiltersFromWhere_keeps_supported_only_witness :
  (Forall (fun c => exists kv, c = JObj kv)
     [JObj [("a", JObj [("$eq", JNum (NDec 1 0))])]; multi_op_clause] /\
   (forall conds, assoc_get [("a", JObj [("$gt", JNum (NDec 3 0))])] "$and" <> JArr conds)) /\
  (exists s', setFiltersFromWhere (mkFiltersState [] 0)
      (Some (JObj [("$and", JArr [JObj [("a", JObj [("$eq", JNum (NDec 1 0))])];
                                  multi_op_clause])])) = Ok s'
     /\ map predicate (filters s')
        = filter is_supported_predicate
            [JObj [("a", JObj [("$eq", JNum (NDec 1 0))])]; multi_op_clause]) /\
  (exists s', setFiltersFromWhere (mkFiltersState [] 0)
      (Some (JObj [("a", JObj [("$gt", JNum (NDec 3 0))])])) = Ok s'
     /\ map predicate (filters s')
        = filter is_supported_predicate [JObj [("a", JObj [("$gt", JNum (NDec 3 0))])]]).
Proof.
  assert (Hf : Forall (fun c => exists kv, c = JObj kv)
     [JObj [("a", JObj [("$eq", JNum (NDec 1 0))])]; multi_op_clause])
    by (repeat constructor; eexists; reflexivity).
  assert (Hn : forall conds,
     assoc_get [("a", JObj [("$gt", JNum (NDec 3 0))])] "$and" <> JArr conds)
    by (intros conds; simpl; discriminate).
  split; [split; assumption|].
  split.
  - exact (proj1 setFiltersFromWhere_keeps_supported_only _ _ Hf).
  - exact (proj2 setFiltersFromWhere_keeps_supported_only _ _ Hn).
Defined.

(** * [parseValue] *)

Lemma trim_start_split (l : list ascii) :
  exists d, l = app d (trim_start l) /\ Forall (fun c => is_js_space c = true) d.
Proof.
  induction l as [|c l IH]; simpl.
  - now exists [].
  - destruct (is_js_space c) eqn:Hc.
    + destruct IH as [d [Hl Hd]]. exists (c :: d).
      split; [simpl; now rewrite <- Hl | now constructor].
    + now exists [].
Qed.

Lemma trim_start_head (l : list ascii) (x : ascii) (r : list ascii) :
  trim_start l = x :: r -> is_js_space x = false.
Proof.
  induction l as [|c l IH]; simpl; [discriminate|].
  destruct (is_js_space c) eqn:Hc; [exact IH|]. now intros [= <- _].
Qed.

Lemma trim_start_idem (l : list ascii) : trim_start (trim_start l) = trim_start l.
Proof.
  induction l as [|c l IH]; simpl; [reflexivity|].
  destruct (is_js_space c) eqn:Hc; [exact IH|]. cbn [trim_start]. now rewrite Hc.
Qed.

Lemma trim_list_idem (l : list ascii) : trim_list (trim_list l) = trim_list l.
Proof.
  unfold trim_list.
  set (A := trim_start l). set (C := trim_start (rev A)).
  assert (HC : trim_start (rev C) = rev C).
  { destruct (trim_start_split (rev A)) as [d [Hd _]]. fold C in Hd.
    assert (HA : A = app (rev C) (rev d)).
    { rewrite <- rev_app_distr, <- Hd. now rewrite rev_involutive. }
    destruct (rev C) as [|x r] eqn:Hr; [reflexivity|].
    simpl in HA. unfold A in HA.
    cbn [trim_start]. now rewrite (trim_start_head _ _ _ HA). }
  rewrite HC, rev_involutive. unfold C. now rewrite trim_start_idem.
Qed.

Lemma parse_non_decimal_not_decimal (t : list ascii) (n : jsnum) :
  parse_non_decimal t = Some n -> parse_decimal t = None.
Proof.
  destruct t as [|z [|p [|d ds]]]; simpl; try discriminate.
  destruct (Ascii.eqb_spec z "0"); [subst z|discriminate]. simpl.
  destruct (Ascii.eqb_spec p "x"); [subst; reflexivity|].
  destruct (Ascii.eqb_spec p "X"); [subst; reflexivity|].
  destruct (Ascii.eqb_spec p "o"); [subst; reflexivity|].
  destruct (Ascii.eqb_spec p "O"); [subst; reflexivity|].
  destruct (Ascii.eqb_spec p "b"); [subst; reflexivity|].
  destruct (Ascii.eqb_spec p "B"); [subst; reflexivity|].
  discriminate.
Qed.

(** [parseValue] for an operator other than [$in], on the trimmed input
    [t]: [Number(t)] for a non-empty [t], the trimmed string otherwise. *)
Lemma parseValue_not_in (raw : string) (op : FilterOperator) :
  op <> OpIn ->
  parseValue raw op =
  match trim_list (list_ascii_of_string raw) with
  | [] => JStr (trim raw)
  | c :: r =>
      match parse_non_decimal (c :: r) with
      | Some n => JNum n
      | None => match parse_decimal (c :: r) with
                | Some n => JNum n
                | None => JStr (trim raw)
                end
      end
  end.
Proof.
  intros Hop. unfold parseValue, js_Number.
  assert (Ht : trim_list (list_ascii_of_string (trim raw))
               = trim_list (list_ascii_of_string raw)).
  { unfold trim. now rewrite list_ascii_of_string_of_list_ascii, trim_list_idem. }
  assert (He : String.eqb (trim raw) ""
               = match trim_list (list_ascii_of_string raw) with
                 | [] => true | _ => false end).
  { unfold trim. destruct (trim_list (list_ascii_of_string raw)); reflexivity. }
  destruct op; try (exfalso; now apply Hop); rewrite Ht, He;
    destruct (trim_list (list_ascii_of_string raw)) as [|c r];
    try reflexivity;
    destruct (parse_non_decimal (c :: r)); try reflexivity;
    destruct (parse_decimal (c :: r)); reflexivity.
Qed.

(** C7 (counterexample): for [$eq], ["0x10"] is not a base-10 numeral,
    so the spec's reading keeps the string ["0x10"], but [parseValue]
    converts it with [Number] to 16. *)
Lemma parseValue_hex_counterexample :
  parseOperatorValue_spec "0x10" OpEq = JStr "0x10" /\
  parseValue "0x10" OpEq = JNum (NDec 16 0) /\
  parseValue "0x10" OpEq <> parseOperatorValue_spec "0x10" OpEq.
Proof. vm_compute. repeat split; discriminate. Qed.

(** C7 (amended): with [$in], the trimmed input split on commas with each
    segment trimmed, always a list; with another operator, the trimmed
    input [t] converted by [Number]: a base-10 literal gives its number, a
    [0x]/[0o]/[0b] integer literal also gives its number, and anything else
    (also the empty string) gives [t].  So ["a, b, c"] with [$in] gives
    [["a","b","c"]], ["42"] with [$eq] gives 42, ["abc"] gives ["abc"] and
    ["0x10"] gives 16. *)
Theorem parseValue_number_conversion :
  (forall raw,
     parseValue raw OpIn = JArr (map (fun v => JStr (trim v)) (split "," (trim raw)))) /\
  (forall raw op n, op <> OpIn ->
     parse_decimal (list_ascii_of_string (trim raw)) = Some n ->
     parseValue raw op = JNum n) /\
  (forall raw op n, op <> OpIn ->
     parse_non_decimal (list_ascii_of_string (trim raw)) = Some n ->
     parseValue raw op = JNum n) /\
  (forall raw op, op <> OpIn ->
     parse_decimal (list_ascii_of_string (trim raw)) = None ->
     parse_non_decimal (list_ascii_of_string (trim raw)) = None ->
     parseValue raw op = JStr (trim raw)) /\
  parseValue "a, b, c" OpIn = JArr [JStr "a"; JStr "b"; JStr "c"] /\
  parseValue "42" OpEq = JNum (NDec 42 0) /\
  parseValue "abc" OpEq = JStr "abc" /\
  parseValue "0x10" OpEq = JNum (NDec 16 0).
Proof.
  assert (Htr : forall raw, list_ascii_of_string (trim raw)
                            = trim_list (list_ascii_of_string raw))
    by (intros raw; apply list_ascii_of_string_of_list_ascii).
  split; [reflexivity|].
  split; [|split; [|split]].
  - intros raw op n Hop Hd. rewrite Htr in Hd. rewrite (parseValue_not_in raw op Hop).
    destruct (trim_list (list_ascii_of_string raw)) as [|c r] eqn:Ht;
      [discriminate|].
    destruct (parse_non_decimal (c :: r)) eqn:Hn.
    + rewrite (parse_non_decimal_not_decimal _ _ Hn) in Hd. discriminate.
    + now rewrite Hd.
  - intros raw op n Hop Hn. rewrite Htr in Hn. rewrite (parseValue_not_in raw op Hop).
    destruct (trim_list (list_ascii_of_string raw)) as [|c r] eqn:Ht;
      [discriminate|]. now rewrite Hn.
  - intros raw op Hop Hd Hn. rewrite Htr in Hd, Hn. rewrite (parseValue_not_in raw op Hop).
    destruct (trim_list (list_ascii_of_string raw)) as [|c r] eqn:Ht;
      [reflexivity|]. now rewrite Hn, Hd.
  - vm_compute. repeat split.
Qed.

Lemma parseValue_number_conversion_witness :
  (OpEq <> OpIn /\
   parse_decimal (list_ascii_of_string (trim " 42 ")) = Some (NDec 42 0) /\
   parse_non_decimal (list_ascii_of_string (trim "0b101")) = Some (NDec 5 0) /\
   parse_decimal (list_ascii_of_string (trim "abc")) = None /\
   parse_non_decimal (list_ascii_of_string (trim "abc")) = None) /\
  parseValue " 42 " OpEq = JNum (NDec 42 0) /\
  parseValue "0b101" OpGt = JNum (NDec 5 0) /\
  parseValue "abc" OpEq = JStr (trim "abc").
Proof.
  assert (Hop : OpEq <> OpIn) by discriminate.
  assert (Hgt : OpGt <> OpIn) by discriminate.
  destruct parseValue_number_conversion as [_ [Hd [Hn [Hs _]]]].
  split; [split; [exact Hop | vm_compute; repeat split]|].
  split; [apply Hd; [exact Hop | vm_compute; reflexivity]|].
  split; [apply Hn; [exact Hgt | vm_compute; reflexivity]|].
  apply Hs; [exact Hop | vm_compute; reflexivity | vm_compute; reflexivity].
Defined.

(** * The API routes *)

Lemma map_index_ext {A B} (f g : nat -> A -> B) (l : list A) (n : nat) :
  (forall i x, f i x = g i x) -> map_index f n l = map_index g n l.
Proof.
  intros H; revert n; induction l as [|x l IH]; intros n; simpl;
    [reflexivity|now rewrite H, IH].
Qed.

Lemma map_map_index {A B C} (h : B -> C) (f : nat -> A -> B) (l : list A) (n : nat) :
  map h (map_index f n l) = map_index (fun i x => h (f i x)) n l.
Proof.
  revert n; induction l as [|x l IH]; intros n; simpl; [reflexivity|now rewrite IH].
Qed.

(** Reading a column built from a window, at the index of each row. *)
Lemma map_index_cell {A X Y} (g : X -> option A) (xs : list X) (ys : list Y)
    (pre : list X) :
  length ys = length xs ->
  map_index (fun i _ => cell (Some (map g (app pre xs))) i) (length pre) ys
  = map g xs.
Proof.
  revert ys pre; induction xs as [|x xs IH]; intros ys pre Hlen;
    destruct ys as [|y ys]; simpl in *; try discriminate; [reflexivity|].
  f_equal.
  - unfold cell. rewrite nth_error_map, nth_error_app2 by lia.
    rewrite Nat.sub_diag. simpl. now destruct (g x).
  - specialize (IH ys (app pre [x]) ltac:(lia)).
    rewrite length_app in IH. simpl in IH. rewrite Nat.add_1_r in IH.
    rewrite <- app_assoc in IH. exact IH.
Qed.

Lemma embeddings_of_list_get (recs : list StoredRecord) (p : GetParams) :
  existsb (String.eqb "embeddings") (gp_include p) = true ->
  map rec_embedding (records_of_get (list_get recs p))
  = map st_embedding
      (let selected :=
         filter (fun r => where_ok (gp_where p) r
                          && where_document_ok (gp_whereDocument p) r) recs in
       let from := skipn (match gp_offset p with Some o => Z.to_nat o | None => 0 end)
                     selected in
       match gp_limit p with Some l => firstn (Z.to_nat l) from | None => from end).
Proof.
  intros Hinc. unfold records_of_get, list_get, column. cbn [gr_ids gr_embeddings].
  rewrite Hinc. rewrite map_map_index. cbn [rec_embedding].
  set (w := match gp_limit p with Some l => _ | None => _ end).
  apply (map_index_cell st_embedding w (map st_id w) []).
  now rewrite length_map.
Qed.

Lemma map_index_none_embedding (f : nat -> string -> option string)
    (g : nat -> string -> option Metadata) (ids : list string) (n : nat) :
  Forall (fun r => rec_embedding r = None)
    (map_index (fun i id => mkChromaRecord id (f i id) (g i id) None) n ids).
Proof.
  revert n; induction ids as [|x ids IH]; intros n; simpl; constructor;
    [reflexivity|apply IH].
Qed.

(** C1 (code bug): the browse route reports as [total] the count of the
    whole collection, whatever the where clause; with the where clause
    [{"type":{"$eq":"text"}}] on ten records of which three match, the
    response holds the three matching records but [total = 10]. *)
Theorem records_total_ignores_where :
  (forall rank recs q,
     exists resp, records_GET (list_collection rank recs) q = Ok resp
                  /\ total resp = length recs) /\
  whereClause type_text_filters = Some (JObj [("type", JObj [("$eq", JStr "text")])]) /\
  length (filter (where_ok (whereClause type_text_filters)) ten_records) = 3 /\
  exists resp,
    records_GET (list_collection keep_order_rank ten_records)
      (mkRecordsQuery 1 10 (whereClause type_text_filters) None) = Ok resp
    /\ length (records resp) = 3 /\ total resp = 10.
Proof.
  split.
  - intros rank recs q. eexists; split; reflexivity.
  - vm_compute. repeat split. eexists; split; [reflexivity|split; reflexivity].
Qed.

(** C10: every record of a semantic search response has a [null]
    embedding, whatever the collection returns; text search and browse
    responses carry the stored embedding of each returned record. *)
Theorem semantic_search_embeddings_null :
  (forall collection b resp,
     sb_type b = SSemantic ->
     search_POST collection b = Ok resp ->
     Forall (fun r => rec_embedding r = None) (results resp)) /\
  (forall rank recs q limit w,
     exists resp,
       search_POST (list_collection rank recs) (mkSearchBody q SText limit w) = Ok resp
       /\ map rec_embedding (results resp)
          = map st_embedding
              (firstn (Z.to_nat limit)
                 (filter (fun r => where_ok w r
                          && where_document_ok (Some (JObj [("$contains", JStr q)])) r)
                    recs))) /\
  (forall rank recs q,
     exists resp,
       records_GET (list_collection rank recs) q = Ok resp
       /\ map rec_embedding (records resp)
          = map st_embedding
              (firstn (Z.to_nat (rq_pageSize q))
                 (skipn (Z.to_nat ((rq_page q - 1) * rq_pageSize q))
                    (filter (fun r => where_ok (rq_where q) r
                             && where_document_ok (rq_whereDocument q) r) recs)))).
Proof.
  split; [|split].
  - intros collection [q t limit w] resp Ht Hs. simpl in Ht; subst t.
    unfold search_POST in Hs; simpl in Hs.
    destruct (query collection _) as [result|msg]; simpl in Hs; [|discriminate].
    injection Hs as <-. simpl. apply map_index_none_embedding.
  - intros rank recs q limit w. eexists; split; [reflexivity|].
    cbn [results]. now rewrite embeddings_of_list_get.
  - intros rank recs q. eexists; split; [reflexivity|].
    cbn [records]. now rewrite embeddings_of_list_get.
Qed.

Lemma semantic_search_embeddings_null_witness :
  SSemantic = SSemantic /\
  search_POST (list_collection keep_order_rank ten_records)
    (mkSearchBody "document" SSemantic 3 None)
  = Ok (mkSearchResponse
          [mkChromaRecord "r0" (Some "document r0") (Some [("type", JStr "text")]) None;
           mkChromaRecord "r1" (Some "document r1") (Some [("type", JStr "image")]) None;
           mkChromaRecord "r2" (Some "document r2") (Some [("type", JStr "text")]) None]
          [NDec 0 0; NDec 0 0; NDec 0 0]) /\
  st_embedding (typed_record "r0" "text") <> None /\
  Forall (fun r => rec_embedding r = None)
    (results (mkSearchResponse
          [mkChromaRecord "r0" (Some "document r0") (Some [("type", JStr "text")]) None;
           mkChromaRecord "r1" (Some "document r1") (Some [("type", JStr "image")]) None;
           mkChromaRecord "r2" (Some "document r2") (Some [("type", JStr "text")]) None]
          [NDec 0 0; NDec 0 0; NDec 0 0])).
Proof.
  assert (Hs : search_POST (list_collection keep_order_rank ten_records)
    (mkSearchBody "document" SSemantic 3 None)
  = Ok (mkSearchResponse
          [mkChromaRecord "r0" (Some "document r0") (Some [("type", JStr "text")]) None;
           mkChromaRecord "r1" (Some "document r1") (Some [("type", JStr "image")]) None;
           mkChromaRecord "r2" (Some "document r2") (Some [("type", JStr "text")]) None]
          [NDec 0 0; NDec 0 0; NDec 0 0])) by (vm_compute; reflexivity).
  split; [reflexivity|]. split; [exact Hs|]. split; [discriminate|].
  exact (proj1 semantic_search_embeddings_null _
    (mkSearchBody "document" SSemantic 3 None) _ eq_refl Hs).
Defined.

(** *** Query strings of the browse requests *)

Lemma list_ascii_of_string_app (s1 s2 : string) :
  list_ascii_of_string (s1 ++ s2)
  = app (list_ascii_of_string s1) (list_ascii_of_string s2).
Proof. induction s1 as [|c s1 IH]; simpl; [reflexivity|now rewrite IH]. Qed.

Lemma div_mod_facts (n d : nat) :
  d <> 0 -> n = d * Nat.div n d + Nat.modulo n d /\ Nat.modulo n d < d.
Proof. intros Hd. split; [apply Nat.div_mod|apply Nat.mod_upper_bound]; exact Hd. Qed.

Lemma ascii_of_nat_not_amp (k : nat) : k < 256 -> k <> 38 -> ascii_of_nat k <> "&"%char.
Proof.
  intros Hk Hne Heq. apply (f_equal nat_of_ascii) in Heq.
  rewrite nat_ascii_embedding in Heq by exact Hk.
  change (nat_of_ascii "&"%char) with 38 in Heq. lia.
Qed.

Lemma hex_digit_not_amp (n : nat) : n < 200 -> hex_digit n <> "&"%char.
Proof.
  intros Hn. unfold hex_digit.
  destruct (Nat.ltb_spec n 10); apply ascii_of_nat_not_amp; lia.
Qed.

Lemma percent_no_amp (n : nat) : n < 256 -> no_amp (percent n).
Proof.
  intros Hn. destruct (div_mod_facts n 16 ltac:(lia)) as [E M].
  repeat constructor; [discriminate| |]; apply hex_digit_not_amp; lia.
Qed.

Lemma encode_char_no_amp (c : ascii) : no_amp (encode_char c).
Proof.
  unfold encode_char. pose proof (nat_ascii_bounded c) as Hc.
  destruct (uri_unreserved c) eqn:Hu.
  - constructor; [|constructor]. intros ->. discriminate Hu.
  - destruct (Nat.ltb_spec (nat_of_ascii c) 128).
    + apply percent_no_amp; lia.
    + destruct (div_mod_facts (nat_of_ascii c) 64 ltac:(lia)) as [E M].
      apply Forall_app; split; apply percent_no_amp; lia.
Qed.

Lemma encodeURIComponent_no_amp (s : string) :
  no_amp (list_ascii_of_string (encodeURIComponent s)).
Proof.
  unfold encodeURIComponent. rewrite list_ascii_of_string_of_list_ascii.
  apply Forall_forall. intros x Hx.
  apply in_concat in Hx as [l [Hl Hx]]. apply in_map_iff in Hl as [c [<- _]].
  exact (proj1 (Forall_forall _ _) (encode_char_no_amp c) x Hx).
Qed.

Lemma digits_rev_no_amp (fuel n : nat) : no_amp (digits_rev fuel n).
Proof.
  revert n. induction fuel as [|fuel IH]; intros n; simpl; [constructor|].
  destruct (div_mod_facts n 10 ltac:(lia)) as [_ M].
  assert (Hd : ascii_of_nat (48 + Nat.modulo n 10) <> "&"%char)
    by (apply ascii_of_nat_not_amp; lia).
  destruct (Nat.ltb n 10); constructor; [exact Hd|constructor|exact Hd|apply IH].
Qed.

Lemma string_of_nat_no_amp (n : nat) :
  no_amp (list_ascii_of_string (string_of_nat n)).
Proof.
  unfold string_of_nat. rewrite list_ascii_of_string_of_list_ascii.
  apply Forall_rev, digits_rev_no_amp.
Qed.

Lemma split_aux_no_sep_app (sep : ascii) (cur l r : list ascii) :
  Forall (fun c => c <> sep) l ->
  split_aux sep cur (app l r) = split_aux sep (app (rev l) cur) r.
Proof.
  intros Hl. revert cur. induction Hl as [|c l Hc Hl IH]; intros cur; [reflexivity|].
  simpl. destruct (Ascii.eqb_spec c sep) as [E|_]; [contradiction|].
  rewrite IH. simpl. now rewrite <- app_assoc.
Qed.

Lemma split_aux_no_sep (sep : ascii) (cur l : list ascii) :
  Forall (fun c => c <> sep) l -> split_aux sep cur l = [app (rev cur) l].
Proof.
  intros Hl. rewrite <- (app_nil_r l) at 1. rewrite split_aux_no_sep_app by exact Hl.
  simpl. now rewrite rev_app_distr, rev_involutive.
Qed.

(** The browse request's query string has exactly the three parameters
    [collection], [page] and [pageSize]. *)
Lemma searchParams_records_url (c : string) (p ps : nat) :
  searchParams ("/api/records?collection=" ++ encodeURIComponent c ++ "&page="
                ++ string_of_nat p ++ "&pageSize=" ++ string_of_nat ps)
  = [("collection", encodeURIComponent c); ("page", string_of_nat p);
     ("pageSize", string_of_nat ps)].
Proof.
  unfold searchParams. simpl.
  rewrite list_ascii_of_string_app, split_aux_no_sep_app
    by apply encodeURIComponent_no_amp.
  simpl. rewrite list_ascii_of_string_app, split_aux_no_sep_app
    by apply string_of_nat_no_amp.
  simpl. rewrite split_aux_no_sep by apply string_of_nat_no_amp.
  simpl. rewrite !rev_app_distr, !rev_involutive. simpl.
  rewrite !string_of_list_ascii_of_string. reflexivity.
Qed.

(** C2 (code bug): the requests [page.tsx] issues never carry the where
    clause, whatever the filter state: the browse request's query string
    holds only [collection], [page] and [pageSize], and the search body
    has no [where] key; yet the records route reads [where] and the
    compiled clause of a non-empty filter list is not null. *)
Theorem home_requests_omit_where :
  (forall fs collection connection page pageSize req,
     home_browse_request fs collection connection page pageSize = Some req ->
     searchParams (req_url req)
       = [("collection", encodeURIComponent collection);
          ("page", string_of_nat page); ("pageSize", string_of_nat pageSize)]
     /\ searchParams_get (req_url req) "where" = None) /\
  (forall fs collection connection embedding query type req,
     home_search_request fs collection connection embedding query type = Some req ->
     exists body, req_body req = Some body /\ get body "where" = JUndefined) /\
  whereClause type_text_filters <> None.
Proof.
  split; [|split].
  - intros fs collection [conn|] page pageSize req H; [|discriminate].
    unfold home_browse_request, records_request in H. cbn [ur_collection] in H.
    destruct (String.eqb collection ""); [discriminate|].
    assert (Hu : req_url req
      = "/api/records?collection=" ++ encodeURIComponent collection ++ "&page="
        ++ string_of_nat page ++ "&pageSize=" ++ string_of_nat pageSize)
      by (injection H as <-; reflexivity).
    unfold searchParams_get. rewrite Hu, searchParams_records_url.
    split; reflexivity.
  - intros fs collection [conn|] embedding query type req H; [|discriminate].
    unfold home_search_request, search_request in H. simpl in H.
    destruct (String.eqb collection ""); [discriminate|].
    destruct (String.eqb (trim query) ""); [discriminate|].
    injection H as <-. eexists; split; reflexivity.
  - discriminate.
Qed.

Lemma home_requests_omit_where_witness :
  home_browse_request type_text_filters "docs" (Some (mkConnection "localhost" 80)) 1 10
  = Some (mkFetchRequest "/api/records?collection=docs&page=1&pageSize=10" "GET"
            [("X-Chroma-Host", "localhost"); ("X-Chroma-Port", "80")] None) /\
  searchParams_get "/api/records?collection=docs&page=1&pageSize=10" "where" = None /\
  (exists body,
     req_body (mkFetchRequest "/api/search" "POST"
                 [("Content-Type", "application/json");
                  ("X-Chroma-Host", "localhost"); ("X-Chroma-Port", "80")]
                 (Some (JObj [("collection", JStr "docs"); ("query", JStr "text");
                              ("type", JStr "text"); ("limit", JNum (NDec 20 0))])))
     = Some body /\ get body "where" = JUndefined).
Proof.
  assert (Hb : home_browse_request type_text_filters "docs"
                 (Some (mkConnection "localhost" 80)) 1 10
    = Some (mkFetchRequest "/api/records?collection=docs&page=1&pageSize=10" "GET"
              [("X-Chroma-Host", "localhost"); ("X-Chroma-Port", "80")] None))
    by (vm_compute; reflexivity).
  assert (Hs : home_search_request type_text_filters "docs"
                 (Some (mkConnection "localhost" 80)) None "text" SText
    = Some (mkFetchRequest "/api/search" "POST"
                 [("Content-Type", "application/json");
                  ("X-Chroma-Host", "localhost"); ("X-Chroma-Port", "80")]
                 (Some (JObj [("collection", JStr "docs"); ("query", JStr "text");
                              ("type", JStr "text"); ("limit", JNum (NDec 20 0))]))))
    by (vm_compute; reflexivity).
  split; [exact Hb|]. split.
  - exact (proj2 (proj1 home_requests_omit_where _ _ _ _ _ _ Hb)).
  - exact (proj1 (proj2 home_requests_omit_where) _ _ _ _ _ _ _ Hs).
Defined.

(** *** The [useRecords] state machine *)

Lemma deps3_eqb_refl (d : string * nat * nat) : deps3_eqb (Some d) d = true.
Proof.
  destruct d as [[c p] z]. simpl.
  now rewrite String.eqb_refl, !Nat.eqb_refl.
Qed.

Lemma deps2_eqb_refl (d : string * nat) : deps2_eqb (Some d) d = true.
Proof. destruct d as [c z]. simpl. now rewrite String.eqb_refl, Nat.eqb_refl. Qed.

Lemma fetchRecords_fields (s : BrowseState) :
  bs_args (fetchRecords s) = bs_args s /\ bs_page (fetchRecords s) = bs_page s /\
  bs_pageSize (fetchRecords s) = bs_pageSize s /\
  bs_reset_deps (fetchRecords s) = bs_reset_deps s.
Proof. unfold fetchRecords. destruct records_request; repeat split. Qed.

(** The fetch effect leaves the page, the arguments and the page size
    alone; the reset effect runs when its dependencies changed. *)
Lemma run_effects_fields (s : BrowseState) :
  bs_args (run_effects s) = bs_args s /\
  bs_pageSize (run_effects s) = bs_pageSize s /\
  bs_page (run_effects s)
    = (if deps2_eqb (bs_reset_deps s) (reset_deps s) then bs_page s else 1) /\
  deps2_eqb (bs_reset_deps (run_effects s)) (reset_deps (run_effects s)) = true.
Proof.
  unfold run_effects.
  set (s1 := if deps3_eqb (bs_fetch_deps s) (fetch_deps s) then s else _).
  assert (H1 : bs_args s1 = bs_args s /\ bs_page s1 = bs_page s /\
               bs_pageSize s1 = bs_pageSize s /\ bs_reset_deps s1 = bs_reset_deps s).
  { subst s1. destruct deps3_eqb; [repeat split|].
    destruct (fetchRecords_fields (mkBrowseState (bs_args s) (bs_connection s)
      (bs_records s) (bs_total s) (bs_page s) (bs_pageSize s) (bs_isLoading s)
      (bs_error s) (Some (fetch_deps s)) (bs_reset_deps s) (bs_inflight s)
      (bs_next_req s))) as (Ha & Hp & Hz & Hr).
    repeat split; assumption. }
  destruct H1 as (Ha & Hp & Hz & Hr).
  assert (Hd : reset_deps s1 = reset_deps s) by (unfold reset_deps; congruence).
  rewrite Hd, Hr. destruct (deps2_eqb (bs_reset_deps s) (reset_deps s)) eqn:E.
  - repeat split; try assumption. now rewrite Hd, Hr.
  - repeat split; try assumption.
    transitivity (deps2_eqb (Some (reset_deps s)) (reset_deps s1));
      [reflexivity|rewrite Hd; apply deps2_eqb_refl].
Qed.

(** After a commit the page is the one the first run of the effects left. *)
Lemma commit_page (s : BrowseState) :
  bs_page (commit s)
  = if deps2_eqb (bs_reset_deps s) (reset_deps s) then bs_page s else 1.
Proof.
  unfold commit. destruct (run_effects_fields s) as (_ & _ & Hp & Hd).
  destruct (Nat.eqb (bs_page (run_effects s)) (bs_page s)); [exact Hp|].
  destruct (run_effects_fields (run_effects s)) as (_ & _ & Hp' & _).
  rewrite Hp', Hd. exact Hp.
Qed.

Lemma deps2_eqb_pageSize (c : string) (z z' : nat) :
  deps2_eqb (Some (c, z)) (c, z') = Nat.eqb z z'.
Proof. simpl. now rewrite String.eqb_refl. Qed.

Lemma deps2_eqb_collection (c c' : string) (z : nat) :
  deps2_eqb (Some (c, z)) (c', z) = String.eqb c c'.
Proof. simpl. now rewrite Nat.eqb_refl, andb_true_r. Qed.

(** C8 (counterexample): on page 3, adding a filter changes the where
    clause passed to [useRecords] but the page stays 3. *)
Lemma filter_change_keeps_page :
  bs_page (browse_run echo_server docs_mount [SetPage 3]) = 3 /\
  whereClause type_text_filters <> None /\
  ur_where (bs_args (browse_run echo_server docs_mount filter_change_trace))
    = whereClause type_text_filters /\
  bs_page (browse_run echo_server docs_mount filter_change_trace) = 3.
Proof. vm_compute. repeat split; discriminate. Qed.

(** C8: in a committed state, changing the page size resets the page to 1
    unless the new size equals the current one, and so does changing the
    collection; changing the where clause (the filters) leaves the page
    unchanged, and setting the page sets it. *)
Theorem browse_page_reset (server : Server) (s : BrowseState)
    (H : bs_reset_deps s = Some (reset_deps s)) :
  (forall n, bs_page (browse_step server s (SetPageSize n))
             = if Nat.eqb (bs_pageSize s) n then bs_page s else 1) /\
  (forall c, bs_page (browse_step server s (SetCollection c))
             = if String.eqb (ur_collection (bs_args s)) c then bs_page s else 1) /\
  (forall w, bs_page (browse_step server s (SetWhere w)) = bs_page s) /\
  (forall n, bs_page (browse_step server s (SetPage n)) = n).
Proof.
  unfold reset_deps in H.
  split; [|split; [|split]]; intros x; cbn [browse_step]; rewrite commit_page;
    cbn -[deps2_eqb]; rewrite H; unfold reset_deps; cbn -[deps2_eqb].
  - now rewrite deps2_eqb_pageSize.
  - now rewrite deps2_eqb_collection.
  - now rewrite deps2_eqb_refl.
  - now rewrite deps2_eqb_refl.
Qed.

Lemma browse_page_reset_witness :
  let s3 := browse_step echo_server docs_mount (SetPage 3) in
  bs_reset_deps s3 = Some (reset_deps s3) /\ bs_page s3 = 3 /\
  bs_page (browse_step echo_server s3 (SetPageSize 25)) = 1.
Proof.
  intros s3.
  assert (H : bs_reset_deps s3 = Some (reset_deps s3)) by (vm_compute; reflexivity).
  split; [exact H|]. split; [vm_compute; reflexivity|].
  rewrite (proj1 (browse_page_reset echo_server s3 H) 25).
  vm_compute. reflexivity.
Defined.

Lemma run_effects_committed (s : BrowseState) : committed s -> run_effects s = s.
Proof.
  intros [H1 H2]. unfold run_effects. rewrite H1, deps3_eqb_refl, H2, deps2_eqb_refl.
  reflexivity.
Qed.

Lemma commit_committed (s : BrowseState) : committed s -> commit s = s.
Proof.
  intros H. unfold commit. rewrite (run_effects_committed s H), Nat.eqb_refl.
  reflexivity.
Qed.

(** C3 (counterexample): the page-3 fetch settles first and its record is
    shown; the page-2 fetch settles afterwards and replaces it, while the
    page is still 3. *)
Lemma stale_page_response_applied :
  bs_page (browse_run echo_server docs_mount (firstn 4 out_of_order_trace)) = 3 /\
  map rec_id (bs_records (browse_run echo_server docs_mount (firstn 4 out_of_order_trace)))
    = ["/api/records?collection=docs&page=3&pageSize=10"] /\
  bs_page (browse_run echo_server docs_mount out_of_order_trace) = 3 /\
  map rec_id (bs_records (browse_run echo_server docs_mount out_of_order_trace))
    = ["/api/records?collection=docs&page=2&pageSize=10"].
Proof. vm_compute. repeat split. Qed.

(** C3: in a committed state, whenever the fetch [k] in flight settles
    with records [rs] and total [t], they replace the displayed records and
    total, whatever fetches were issued after [k] and whatever page is
    current; the page is not changed. *)
Theorem settled_response_applied (server : Server) (s : BrowseState) (k : nat)
    (req : FetchRequest) (rest : list (nat * FetchRequest))
    (rs : list ChromaRecord) (t : nat)
    (Hc : committed s)
    (Hk : take_inflight k (bs_inflight s) = (Some req, rest))
    (Hs : server req = Ok (rs, t)) :
  bs_records (browse_step server s (Complete k)) = rs /\
  bs_total (browse_step server s (Complete k)) = t /\
  bs_page (browse_step server s (Complete k)) = bs_page s /\
  bs_inflight (browse_step server s (Complete k)) = rest.
Proof.
  cbn [browse_step]. unfold complete. rewrite Hk, Hs.
  rewrite commit_committed by (destruct Hc as [H1 H2]; split; assumption).
  repeat split.
Qed.

Lemma settled_response_applied_witness :
  let s := browse_run echo_server docs_mount (firstn 4 out_of_order_trace) in
  committed s /\
  take_inflight 1 (bs_inflight s)
    = (Some (mkFetchRequest "/api/records?collection=docs&page=2&pageSize=10" "GET"
               [("X-Chroma-Host", "h"); ("X-Chroma-Port", "80")] None), []) /\
  bs_page s = 3 /\
  bs_records (browse_step echo_server s (Complete 1))
    = [mkChromaRecord "/api/records?collection=docs&page=2&pageSize=10" None None None].
Proof.
  intros s.
  assert (Hc : committed s) by (split; vm_compute; reflexivity).
  assert (Hk : take_inflight 1 (bs_inflight s)
    = (Some (mkFetchRequest "/api/records?collection=docs&page=2&pageSize=10" "GET"
               [("X-Chroma-Host", "h"); ("X-Chroma-Port", "80")] None), []))
    by (vm_compute; reflexivity).
  split; [exact Hc|]. split; [exact Hk|]. split; [vm_compute; reflexivity|].
  exact (proj1 (settled_response_applied echo_server s 1 _ _ _ _ Hc Hk eq_refl)).
Defined.

(** *** Metadata samples *)

Lemma fm_get_set (fm : FieldMap) (k k' : string) (i : FieldInfo) :
  fm_get (fm_set fm k i) k' = if String.eqb k' k then Some i else fm_get fm k'.
Proof.
  induction fm as [|[k0 i0] fm IH]; simpl.
  - reflexivity.
  - destruct (String.eqb_spec k k0) as [->|Hne]; simpl.
    + destruct (String.eqb k' k0); reflexivity.
    + rewrite IH. destruct (String.eqb_spec k' k) as [->|_]; [|reflexivity].
      destruct (String.eqb_spec k k0); [contradiction|reflexivity].
Qed.

Lemma samples_distinct_nil : samples_distinct [].
Proof. intros pre x post H. destruct pre; discriminate. Qed.

Lemma samples_distinct_add (l : list mval) (v : mval) :
  samples_distinct l -> samples_distinct (add_sample l v).
Proof.
  intros Hl. unfold add_sample.
  destruct (existsb (same_value_zero v) l) eqn:Hv; [exact Hl|].
  intros pre x post H.
  destruct post as [|y post] using rev_ind.
  - apply app_inj_tail in H as [-> ->]. exact Hv.
  - rewrite app_comm_cons, app_assoc in H.
    apply app_inj_tail in H as [H _]. exact (Hl pre x post H).
Qed.

Lemma add_sample_length (l : list mval) (v : mval) :
  length (add_sample l v) <= S (length l).
Proof.
  unfold add_sample. destruct existsb; [lia|].
  rewrite length_app. simpl. lia.
Qed.

Lemma observe_ok (h : Heap) (fm : FieldMap) (kv : string * mval) :
  fm_ok fm -> fm_ok (observe h fm kv).
Proof.
  intros Hfm k i. destruct kv as [key v]. unfold observe.
  rewrite fm_get_set. destruct (String.eqb k key); [|apply Hfm].
  intros E. injection E as <-. simpl.
  assert (Hold : length (sampleValues match fm_get fm key with
                                      | Some i => i | None => mkFieldInfo [] [] end) <= 5
                 /\ samples_distinct (sampleValues match fm_get fm key with
                                      | Some i => i | None => mkFieldInfo [] [] end)).
  { destruct (fm_get fm key) as [i|] eqn:E; [exact (Hfm key i E)|].
    split; [simpl; lia|apply samples_distinct_nil]. }
  destruct Hold as [Hlen Hd].
  destruct (Nat.ltb_spec (length (sampleValues match fm_get fm key with
                                      | Some i => i | None => mkFieldInfo [] [] end)) 5).
  - split; [|now apply samples_distinct_add].
    pose proof (add_sample_length (sampleValues match fm_get fm key with
                                      | Some i => i | None => mkFieldInfo [] [] end) v).
    lia.
  - split; assumption.
Qed.

Lemma analyze_ok (h : Heap) (metadatas : list (option (list (string * mval)))) :
  fm_ok (analyze h metadatas).
Proof.
  unfold analyze.
  assert (H0 : fm_ok []) by (intros k i E; discriminate E).
  revert H0. generalize (@nil (string * FieldInfo)) as fm.
  induction metadatas as [|[entries|] rest IH]; intros fm Hfm; simpl; [exact Hfm| |].
  - apply IH. revert fm Hfm. induction entries as [|kv entries IHe]; intros fm Hfm;
      simpl; [exact Hfm|]. apply IHe, observe_ok, Hfm.
  - apply IH, Hfm.
Qed.

(** C9 (counterexample): two structurally equal arrays [["a"]] sampled for
    the key [tags] are kept as two sample values. *)
Lemma equal_arrays_sampled_twice :
  heap_get tags_heap 0 = heap_get tags_heap 1 /\
  fm_get (analyze tags_heap tags_metadatas) "tags"
    = Some (mkFieldInfo ["array"] [MRef 0; MRef 1]).
Proof. vm_compute. split; reflexivity. Qed.

(** C9: for every key of the field map built by the metadata route, at most
    5 sample values are kept, and no sample is SameValueZero-equal to an
    earlier one (arrays and objects compared by reference). *)
Theorem analyze_samples_bounded (h : Heap)
    (metadatas : list (option (list (string * mval)))) (key : string) (info : FieldInfo)
    (H : fm_get (analyze h metadatas) key = Some info) :
  length (sampleValues info) <= 5 /\ samples_distinct (sampleValues info).
Proof. exact (analyze_ok h metadatas key info H). Qed.

Lemma analyze_samples_bounded_witness :
  fm_get (analyze tags_heap tags_metadatas) "tags"
    = Some (mkFieldInfo ["array"] [MRef 0; MRef 1]) /\
  length [MRef 0; MRef 1] <= 5 /\ samples_distinct [MRef 0; MRef 1].
Proof.
  assert (H : fm_get (analyze tags_heap tags_metadatas) "tags"
              = Some (mkFieldInfo ["array"] [MRef 0; MRef 1])) by (vm_compute; reflexivity).
  split; [exact H|].
  exact (analyze_samples_bounded tags_heap tags_metadatas "tags" _ H).
Defined.

(** * Further properties of the code *)

(** *** The filter list operations of [useFilters] *)

(** X: removing the filter just added, by its fresh id, restores the
    filter list and the compiled where clause. *)
Theorem addFilter_removeFilter (s : FiltersState) (fld : string) (op : FilterOperator)
    (v : json) (Hfresh : ~ In (next_id s) (map id (filters s))) :
  filters (removeFilter (addFilter s fld op v) (next_id s)) = filters s /\
  whereClause (removeFilter (addFilter s fld op v) (next_id s)) = whereClause s.
Proof.
  assert (H : filters (removeFilter (addFilter s fld op v) (next_id s)) = filters s).
  { cbn [removeFilter addFilter filters]. rewrite filter_app. simpl.
    rewrite Nat.eqb_refl, app_nil_r. simpl.
    induction (filters s) as [|f fs IH]; [reflexivity|]. simpl in *.
    destruct (Nat.eqb_spec (id f) (next_id s)) as [E|_].
    - exfalso. apply Hfresh. now left.
    - simpl. f_equal. apply IH. intros Hin. apply Hfresh. now right. }
  split; [exact H|]. unfold whereClause. now rewrite H.
Qed.

Lemma addFilter_removeFilter_witness :
  ~ In 1 (map id (filters type_text_filters)) /\
  filters (removeFilter (addFilter type_text_filters "year" OpGt (JNum (NDec 2000 0))) 1)
  = filters type_text_filters.
Proof.
  assert (H : ~ In (next_id type_text_filters) (map id (filters type_text_filters))).
  { simpl. intros [E|[]]. discriminate E. }
  split; [exact H|].
  exact (proj1 (addFilter_removeFilter type_text_filters "year" OpGt
                  (JNum (NDec 2000 0)) H)).
Defined.

(** X: [updateFilter] never adds, drops or reorders filters and never
    changes an id; a filter with another id is left as it is, the filter
    with the id gets the given keys; when no filter has the id, or the
    update has no key, the list is unchanged. *)
Theorem updateFilter_shape (s : FiltersState) (i : nat) (u : FilterUpdate) :
  map id (filters (updateFilter s i u)) = map id (filters s) /\
  (forall j f, nth_error (filters s) j = Some f ->
     nth_error (filters (updateFilter s i u)) j
     = Some (if Nat.eqb (id f) i then apply_update f u else f)) /\
  (~ In i (map id (filters s)) -> filters (updateFilter s i u) = filters s) /\
  filters (updateFilter s i (mkFilterUpdate None None None)) = filters s.
Proof.
  cbn [updateFilter filters]. split; [|split; [|split]].
  - rewrite map_map. apply map_ext. intros f.
    destruct (Nat.eqb (id f) i); reflexivity.
  - intros j f Hj. now rewrite nth_error_map, Hj.
  - intros Hn. induction (filters s) as [|f fs IH]; [reflexivity|]. simpl in *.
    destruct (Nat.eqb_spec (id f) i) as [E|_].
    + exfalso. apply Hn. now left.
    + f_equal. apply IH. intros Hin. apply Hn. now right.
  - induction (filters s) as [|f fs IH]; [reflexivity|]. simpl.
    rewrite IH. destruct (Nat.eqb (id f) i); [|reflexivity].
    now destruct f.
Qed.

Lemma updateFilter_shape_witness :
  ~ In 5 (map id (filters type_text_filters)) /\
  filters (updateFilter type_text_filters 5 (mkFilterUpdate (Some "kind") None None))
  = filters type_text_filters.
Proof.
  assert (H : ~ In 5 (map id (filters type_text_filters))).
  { simpl. intros [E|[]]. discriminate E. }
  split; [exact H|].
  exact (proj1 (proj2 (proj2 (updateFilter_shape type_text_filters 5
                                (mkFilterUpdate (Some "kind") None None)))) H).
Defined.

(** X: after [addFilter] the compiled clause is the new filter's
    predicate alone if the list was empty, and otherwise an [$and] of the
    previous predicates followed by the new one; after [clearFilters] it is
    [null]. *)
Theorem addFilter_whereClause (s : FiltersState) (fld : string) (op : FilterOperator)
    (v : json) :
  whereClause (addFilter s fld op v)
  = Some (match filters s with
          | [] => JObj [(fld, JObj [(op_key op, v)])]
          | _ => JObj [("$and", JArr (app (map predicate (filters s))
                                        [JObj [(fld, JObj [(op_key op, v)])]]))]
          end) /\
  whereClause (clearFilters s) = None.
Proof.
  split; [|reflexivity].
  unfold whereClause, addFilter. cbn [filters].
  destruct (filters s) as [|f fs]; [reflexivity|].
  simpl. destruct fs; simpl; [reflexivity|]. now rewrite map_app.
Qed.

(** *** Decoding the query string and the headers on the server *)

Lemma forall_ascii (f : ascii -> bool) :
  forallb f all_ascii = true -> forall c, f c = true.
Proof.
  intros H c. rewrite forallb_forall in H. apply H.
  unfold all_ascii. rewrite <- (ascii_nat_embedding c). apply in_map, in_seq.
  pose proof (nat_ascii_bounded c). lia.
Qed.

Lemma code_points_app (s1 s2 : string) :
  code_points (s1 ++ s2) = app (code_points s1) (code_points s2).
Proof. unfold code_points. now rewrite list_ascii_of_string_app, map_app. Qed.

Lemma pd_chunks_app (p d rest : list nat) :
  pd_chunks p = Some d -> percent_decode (app p rest) = app d (percent_decode rest).
Proof.
  revert d. induction p as [p IH] using (induction_ltof1 _ (@length nat)).
  intros d H. destruct p as [|c p']; [injection H as <-; reflexivity|].
  simpl in H |- *. destruct (Nat.eqb_spec c 37) as [->|Hc].
  - destruct p' as [|a [|b r]]; try discriminate.
    destruct (hex_value a) as [x|] eqn:Ha; [|discriminate].
    destruct (hex_value b) as [y|] eqn:Hb; [|discriminate].
    destruct (pd_chunks r) as [d'|] eqn:Hr; [|discriminate].
    injection H as <-. simpl. rewrite Ha, Hb.
    rewrite (IH r) with (d := d'); [reflexivity| |exact Hr].
    unfold ltof. simpl. lia.
  - destruct (pd_chunks p') as [d'|] eqn:Hr; [|discriminate].
    injection H as <-. simpl.
    rewrite (IH p') with (d := d'); [reflexivity| |exact Hr].
    unfold ltof. simpl. lia.
Qed.

Lemma utf8_run_app (st st' : Utf8State) (l out rest : list nat) (fuel : nat) :
  utf8_run st l = Some (out, st') ->
  utf8_decode_aux (length l + fuel) st (app l rest)
  = app out (utf8_decode_aux fuel st' rest).
Proof.
  revert st out. induction l as [|b l IH]; intros st out H.
  - injection H as <- <-. reflexivity.
  - simpl in H |- *. destruct (utf8_step st b) as [[o again] st1].
    destruct again; [discriminate|].
    destruct (utf8_run st1 l) as [[o' st2]|] eqn:Hr; [|discriminate].
    injection H as <- <-. rewrite (IH st1 o' Hr). now rewrite app_assoc.
Qed.

Lemma utf8_state_eqb_true (a b : Utf8State) : utf8_state_eqb a b = true -> a = b.
Proof.
  destruct a, b. unfold utf8_state_eqb. simpl.
  rewrite !andb_true_iff, !Nat.eqb_eq. intros [[[[-> ->] ->] ->] ->]. reflexivity.
Qed.

(** The escapes of one character decode to its UTF-8 bytes, and those to
    the character itself. *)
Lemma encode_char_facts :
  forall c,
    (forallb (fun x => Nat.ltb (nat_of_ascii x) 128 && negb (Nat.eqb (nat_of_ascii x) 43))
       (encode_char c)
     && match pd_chunks (map nat_of_ascii (encode_char c)) with
        | Some d => nat_list_eqb d (utf8_encode_unit (nat_of_ascii c))
        | None => false
        end
     && match utf8_run utf8_init (utf8_encode_unit (nat_of_ascii c)) with
        | Some (o, st) => nat_list_eqb o [nat_of_ascii c] && utf8_state_eqb st utf8_init
        | None => false
        end) = true.
Proof. apply forall_ascii. vm_compute. reflexivity. Qed.

Lemma nat_list_eqb_true (a b : list nat) : nat_list_eqb a b = true -> a = b.
Proof.
  revert b. induction a as [|x a IH]; intros [|y b] H; try discriminate; [reflexivity|].
  simpl in H. apply andb_true_iff in H as [Hx Hb].
  apply Nat.eqb_eq in Hx as ->. now rewrite (IH b Hb).
Qed.

Lemma nat_list_eqb_refl (a : list nat) : nat_list_eqb a a = true.
Proof. induction a as [|x a IH]; [reflexivity|]. simpl. now rewrite Nat.eqb_refl, IH. Qed.

Lemma encode_char_split (c : ascii) :
  Forall (fun x => nat_of_ascii x < 128 /\ nat_of_ascii x <> 43) (encode_char c)
  /\ pd_chunks (map nat_of_ascii (encode_char c)) = Some (utf8_encode_unit (nat_of_ascii c))
  /\ utf8_run utf8_init (utf8_encode_unit (nat_of_ascii c)) = Some ([nat_of_ascii c], utf8_init).
Proof.
  pose proof (encode_char_facts c) as H. rewrite !andb_true_iff in H.
  destruct H as [[H1 H2] H3]. split; [|split].
  - rewrite forallb_forall in H1. apply Forall_forall. intros x Hx.
    specialize (H1 x Hx). apply andb_true_iff in H1 as [Ha Hb].
    apply Nat.ltb_lt in Ha. apply negb_true_iff, Nat.eqb_neq in Hb. auto.
  - destruct (pd_chunks _); [|discriminate]. now rewrite (nat_list_eqb_true _ _ H2).
  - destruct (utf8_run _ _) as [[o st]|]; [|discriminate].
    apply andb_true_iff in H3 as [Ho Hs].
    now rewrite (nat_list_eqb_true _ _ Ho), (utf8_state_eqb_true _ _ Hs).
Qed.

Lemma code_points_encodeURIComponent (s : string) :
  code_points (encodeURIComponent s)
  = concat (map (fun c => map nat_of_ascii (encode_char c)) (list_ascii_of_string s)).
Proof.
  unfold code_points, encodeURIComponent.
  now rewrite list_ascii_of_string_of_list_ascii, concat_map, map_map.
Qed.

Lemma utf8_encode_units_ascii (l : list nat) :
  Forall (fun n => n < 128) l -> concat (map utf8_encode_unit l) = l.
Proof.
  induction 1 as [|n l Hn _ IH]; [reflexivity|].
  simpl. unfold utf8_encode_unit at 1. apply Nat.ltb_lt in Hn. rewrite Hn.
  simpl. now rewrite IH.
Qed.

Lemma percent_decode_encoded (l : list ascii) :
  percent_decode (concat (map (fun c => map nat_of_ascii (encode_char c)) l))
  = concat (map (fun c => utf8_encode_unit (nat_of_ascii c)) l).
Proof.
  induction l as [|c l IH]; [reflexivity|]. simpl.
  destruct (encode_char_split c) as [_ [Hp _]].
  now rewrite (pd_chunks_app _ _ _ Hp), IH.
Qed.

Lemma utf8_decode_units (l : list nat) (fuel : nat) :
  Forall (fun n => n < 256) l ->
  length (concat (map utf8_encode_unit l)) <= fuel ->
  utf8_decode_aux fuel utf8_init (concat (map utf8_encode_unit l)) = l.
Proof.
  intros Hl. revert fuel. induction Hl as [|n l Hn _ IH]; intros fuel Hf.
  - destruct fuel; reflexivity.
  - simpl in Hf |- *. rewrite length_app in Hf.
    destruct (encode_char_split (ascii_of_nat n)) as [_ [_ Hr]].
    rewrite nat_ascii_embedding in Hr by exact Hn.
    replace fuel with (length (utf8_encode_unit n) + (fuel - length (utf8_encode_unit n)))
      by lia.
    rewrite (utf8_run_app _ _ _ _ _ _ Hr). simpl. f_equal. apply IH. lia.
Qed.

Lemma form_decode_encode (s : string) :
  form_decode (encodeURIComponent s) = code_points s.
Proof.
  unfold form_decode, utf8_encode.
  assert (Hsmall : Forall (fun n => n < 128 /\ n <> 43) (code_points (encodeURIComponent s))).
  { rewrite code_points_encodeURIComponent. apply Forall_concat, Forall_map, Forall_forall.
    intros c _. apply Forall_map. exact (proj1 (encode_char_split c)). }
  rewrite utf8_encode_units_ascii
    by (eapply Forall_impl; [|exact Hsmall]; intros n [Hn _]; exact Hn).
  rewrite map_ext_Forall with (g := fun b => b)
    by (eapply Forall_impl; [|exact Hsmall]; intros n [_ Hn];
        apply Nat.eqb_neq in Hn; now rewrite Hn).
  rewrite map_id, code_points_encodeURIComponent, percent_decode_encoded.
  unfold utf8_decode. rewrite <- map_map with (f := nat_of_ascii) (g := utf8_encode_unit).
  unfold code_points. apply utf8_decode_units.
  - apply Forall_map, Forall_forall. intros c _. apply nat_ascii_bounded.
  - lia.
Qed.

Lemma digits_rev_spec (fuel n : nat) :
  n < fuel ->
  map nat_of_ascii (rev (digits_rev fuel n)) <> []
  /\ Forall (fun c => 48 <= c <= 57) (map nat_of_ascii (rev (digits_rev fuel n)))
  /\ digits_value_cp (map nat_of_ascii (rev (digits_rev fuel n))) = Z.of_nat n.
Proof.
  revert n. induction fuel as [|f IH]; intros n Hn; [lia|].
  pose proof (div_mod_facts n 10 ltac:(lia)) as [Hdm Hm].
  assert (Hd : nat_of_ascii (ascii_of_nat (48 + n mod 10)) = 48 + n mod 10)
    by (apply nat_ascii_embedding; lia).
  cbn [digits_rev]. destruct (Nat.ltb_spec n 10) as [Hlt|Hge].
  - cbn [rev app map]. rewrite Hd. split; [discriminate|split].
    + constructor; [lia|constructor].
    + unfold digits_value_cp. cbn [fold_left]. rewrite Nat.mod_small by exact Hlt. lia.
  - destruct (IH (n / 10) ltac:(lia)) as [Hne [Hall Hv]].
    cbn [rev]. rewrite map_app. cbn [map]. rewrite Hd. split; [|split].
    + intros Habs. apply app_eq_nil in Habs as [_ Habs]. discriminate.
    + apply Forall_app. split; [exact Hall|]. constructor; [lia|constructor].
    + unfold digits_value_cp in *. rewrite fold_left_app, Hv. cbn [fold_left]. lia.
Qed.

Lemma parseInt10_cp_digits (ds rest : list nat) :
  ds <> [] -> Forall (fun c => 48 <= c <= 57) ds ->
  match rest with c :: _ => Nat.leb 48 c && Nat.leb c 57 = false | [] => True end ->
  parseInt10_cp (app ds rest) = Some (digits_value_cp ds).
Proof.
  intros Hne Hall Hrest.
  assert (Hspan : span_digits_cp (app ds rest) = (ds, rest)).
  { clear Hne. induction Hall as [|c ds Hc _ IH].
    - destruct rest as [|c r]; [reflexivity|]. cbn [app span_digits_cp]. now rewrite Hrest.
    - cbn [app span_digits_cp]. rewrite IH. destruct Hc as [H1 H2].
      apply Nat.leb_le in H1, H2. now rewrite H1, H2. }
  destruct ds as [|c ds']; [contradiction|]. inversion Hall as [|? ? [H1 H2] _]; subst.
  unfold parseInt10_cp. cbn [app trim_start_cp].
  assert (Hsp : is_js_space_cp c = false).
  { assert (Hd : forallb (fun c => negb (is_js_space_cp c)) (seq 48 10) = true)
      by (vm_compute; reflexivity).
    rewrite forallb_forall in Hd. apply negb_true_iff, Hd, in_seq. lia. }
  rewrite Hsp.
  destruct (Nat.eqb_spec c 45); [lia|]. destruct (Nat.eqb_spec c 43); [lia|].
  change (c :: ds' ++ rest) with (app (c :: ds') rest). rewrite Hspan.
  now rewrite Z.mul_1_l.
Qed.

Lemma parseInt10_string_of_nat (n : nat) :
  parseInt10_cp (code_points (string_of_nat n)) = Some (Z.of_nat n).
Proof.
  unfold code_points, string_of_nat. rewrite list_ascii_of_string_of_list_ascii.
  destruct (digits_rev_spec (S n) n ltac:(lia)) as [Hne [Hall Hv]].
  rewrite <- (app_nil_r (map _ _)). rewrite parseInt10_cp_digits; auto.
  now rewrite Hv.
Qed.

(** The server's decoding of a query parameter ([searchParams.get]) undoes
    the hook's [encodeURIComponent]: every string comes back as its code
    points, [+], [&], [=], [%] and non-ASCII characters included. *)
Theorem form_decode_encodeURIComponent (s : string) :
  form_decode (encodeURIComponent s) = code_points s.
Proof. apply form_decode_encode. Qed.

Lemma encodeURIComponent_digits (s : string) :
  Forall (fun c => 48 <= nat_of_ascii c <= 57) (list_ascii_of_string s) ->
  encodeURIComponent s = s.
Proof.
  intros Hs. unfold encodeURIComponent.
  rewrite <- (string_of_list_ascii_of_string s) at 2. f_equal.
  induction Hs as [|c l [H1 H2] _ IH]; [reflexivity|].
  assert (Hu : uri_unreserved c = true).
  { unfold uri_unreserved.
    destruct (Nat.leb_spec 48 (nat_of_ascii c)), (Nat.leb_spec (nat_of_ascii c) 57);
      try lia; reflexivity. }
  simpl. unfold encode_char at 1. rewrite Hu. simpl. now rewrite IH.
Qed.

Lemma string_of_nat_digits (n : nat) :
  Forall (fun c => 48 <= nat_of_ascii c <= 57) (list_ascii_of_string (string_of_nat n))
  /\ code_points (string_of_nat n) <> [].
Proof.
  destruct (digits_rev_spec (S n) n ltac:(lia)) as [Hne [Hall _]].
  unfold code_points, string_of_nat. rewrite list_ascii_of_string_of_list_ascii.
  split; [|exact Hne]. apply Forall_map in Hall. exact Hall.
Qed.

Lemma form_decode_string_of_nat (n : nat) :
  form_decode (string_of_nat n) = code_points (string_of_nat n).
Proof.
  rewrite <- (encodeURIComponent_digits (string_of_nat n)) at 1
    by apply string_of_nat_digits.
  apply form_decode_encode.
Qed.

Lemma records_request_url (args : UseRecordsArgs) (connection : option Connection)
    (page pageSize : nat) (req : FetchRequest) :
  records_request args connection page pageSize = Some req ->
  exists conn, connection = Some conn /\ ur_collection args <> ""
  /\ req_url req = "/api/records?collection=" ++ encodeURIComponent (ur_collection args)
       ++ "&page=" ++ string_of_nat page ++ "&pageSize=" ++ string_of_nat pageSize
  /\ req_headers req = [("X-Chroma-Host", host conn); ("X-Chroma-Port", string_of_nat (port conn))].
Proof.
  unfold records_request. destruct connection as [conn|]; [|discriminate].
  destruct (String.eqb_spec (ur_collection args) "") as [_|Hne]; [discriminate|].
  intros H. exists conn. injection H as <-. repeat split; assumption || reflexivity.
Qed.


(** The records route reads back exactly what the browse hook sent: the
    collection name (as its code points, whatever characters it holds)
    and the page and page size as numbers. *)
Theorem records_params_records_request (args : UseRecordsArgs)
    (connection : option Connection) (page pageSize : nat) (req : FetchRequest) :
  records_request args connection page pageSize = Some req ->
  records_params (req_url req)
  = mkRecordsParams (code_points (ur_collection args))
      (Some (Z.of_nat page)) (Some (Z.of_nat pageSize)).
Proof.
  intros H. destruct (records_request_url _ _ _ _ _ H) as [conn [_ [_ [Hu _]]]].
  unfold records_params, searchParams_get_decoded. rewrite Hu, searchParams_records_url.
  assert (E1 : nat_list_eqb (form_decode "collection") (code_points "collection") = true)
    by (vm_compute; reflexivity).
  assert (E2 : nat_list_eqb (form_decode "collection") (code_points "page") = false)
    by (vm_compute; reflexivity).
  assert (E3 : nat_list_eqb (form_decode "page") (code_points "page") = true)
    by (vm_compute; reflexivity).
  assert (E4 : nat_list_eqb (form_decode "collection") (code_points "pageSize") = false)
    by (vm_compute; reflexivity).
  assert (E5 : nat_list_eqb (form_decode "page") (code_points "pageSize") = false)
    by (vm_compute; reflexivity).
  assert (E6 : nat_list_eqb (form_decode "pageSize") (code_points "pageSize") = true)
    by (vm_compute; reflexivity).
  cbn [find fst snd option_map]. rewrite E1, E2, E3, E4, E5, E6. cbn [option_map snd].
  rewrite form_decode_encode, !form_decode_string_of_nat.
  destruct (string_of_nat_digits page) as [_ Hp].
  destruct (string_of_nat_digits pageSize) as [_ Hps].
  pose proof (parseInt10_string_of_nat page) as Pp.
  pose proof (parseInt10_string_of_nat pageSize) as Pps.
  destruct (code_points (string_of_nat page)); [contradiction|].
  destruct (code_points (string_of_nat pageSize)); [contradiction|].
  now rewrite Pp, Pps.
Qed.

Lemma records_params_witness :
  records_request (mkUseRecordsArgs "docs & notes" None) (Some (mkConnection "localhost" 8000)) 3 25
    = Some (mkFetchRequest "/api/records?collection=docs%20%26%20notes&page=3&pageSize=25" "GET"
              [("X-Chroma-Host", "localhost"); ("X-Chroma-Port", "8000")] None)
  /\ records_params (req_url (mkFetchRequest
         "/api/records?collection=docs%20%26%20notes&page=3&pageSize=25" "GET"
         [("X-Chroma-Host", "localhost"); ("X-Chroma-Port", "8000")] None))
    = mkRecordsParams (code_points (ur_collection (mkUseRecordsArgs "docs & notes" None)))
        (Some (Z.of_nat 3)) (Some (Z.of_nat 25)).
Proof.
  split; [vm_compute; reflexivity|].
  apply (records_params_records_request (mkUseRecordsArgs "docs & notes" None)
           (Some (mkConnection "localhost" 8000)) 3 25).
  vm_compute. reflexivity.
Defined.











(** *** Pages of the browse route and the [Pagination] component *)

Lemma totalPages_bounds (total pageSize : Z) :
  (0 < pageSize)%Z ->
  (total <= totalPages total pageSize * pageSize < total + pageSize)%Z.
Proof.
  intros Hps. unfold totalPages.
  pose proof (Z.div_mod (- total) pageSize ltac:(lia)) as Hd.
  pose proof (Z.mod_pos_bound (- total) pageSize Hps) as Hm.
  nia.
Qed.

Lemma firstn_skipn_concat {A} (a b : nat) (l : list A) :
  app (firstn a l) (firstn b (skipn a l)) = firstn (a + b) l.
Proof.
  revert l. induction a as [|a IH]; intros l; [reflexivity|].
  destruct l as [|x l]; simpl; [now rewrite firstn_nil|]. now rewrite IH.
Qed.

Lemma pages_concat {A} (n m k : nat) (l : list A) :
  concat (map (fun p => firstn n (skipn ((p - 1) * n) l)) (seq (S k) m))
  = firstn (m * n) (skipn (k * n) l).
Proof.
  revert k. induction m as [|m IH]; intros k; [reflexivity|].
  cbn [seq map concat]. rewrite IH. replace (S k - 1) with k by lia.
  replace (S k * n) with (n + k * n) by lia. rewrite <- skipn_skipn.
  rewrite firstn_skipn_concat. reflexivity.
Qed.

Lemma map_index_records (w pre : list StoredRecord) :
  map_index (fun index id =>
      mkChromaRecord id (cell (Some (map st_document (app pre w))) index)
        (cell (Some (map st_metadata (app pre w))) index)
        (cell (Some (map st_embedding (app pre w))) index))
    (length pre) (map st_id w)
  = map (fun r => mkChromaRecord (st_id r) (st_document r) (st_metadata r) (st_embedding r)) w.
Proof.
  revert pre. induction w as [|r w IH]; intros pre; [reflexivity|].
  cbn [map map_index]. f_equal.
  - unfold cell. rewrite !nth_error_map, nth_error_app2, Nat.sub_diag by lia. cbn.
    now destruct (st_document r), (st_metadata r), (st_embedding r).
  - specialize (IH (app pre [r])). rewrite length_app, <- app_assoc in IH.
    cbn in IH. now rewrite Nat.add_1_r in IH.
Qed.

(** The route on a collection held as a list, with no where clause: page
    [page] is the [pageSize] records from offset [(page - 1) * pageSize]. *)
Lemma records_GET_page (rank : string -> list StoredRecord -> list (StoredRecord * jsnum))
    (recs : list StoredRecord) (page pageSize : Z) :
  records_GET (list_collection rank recs) (mkRecordsQuery page pageSize None None)
  = Ok (mkRecordsResponse
          (map (fun r => mkChromaRecord (st_id r) (st_document r) (st_metadata r) (st_embedding r))
             (firstn (Z.to_nat pageSize) (skipn (Z.to_nat ((page - 1) * pageSize)) recs)))
          (length recs) page pageSize).
Proof.
  unfold records_GET. cbn [list_collection count get_records bind rq_page rq_pageSize
                          rq_where rq_whereDocument].
  f_equal. f_equal. unfold records_of_get, list_get. cbn [gp_where gp_whereDocument
                                                         gp_offset gp_limit gp_include].
  assert (Hsel : filter (fun r => where_ok None r && where_document_ok None r) recs = recs).
  { induction recs as [|r recs IH]; [reflexivity|]. cbn [filter]. now rewrite IH. }
  rewrite Hsel. unfold column. cbn.
  apply (map_index_records _ []).
Qed.

Lemma page_offset_nat (p : nat) (pageSize : Z) :
  1 <= p -> (0 <= pageSize)%Z ->
  Z.to_nat ((Z.of_nat p - 1) * pageSize) = (p - 1) * Z.to_nat pageSize.
Proof.
  intros Hp Hps. replace (Z.of_nat p - 1)%Z with (Z.of_nat (p - 1)) by lia.
  rewrite Z2Nat.inj_mul by lia. now rewrite Nat2Z.id.
Qed.

(** Browsing with no filter, pages [1] to [totalPages] (as [Pagination]
    computes it from the route's [total]) return every record of the
    collection exactly once, in order. *)
Theorem pages_cover_collection (rank : string -> list StoredRecord -> list (StoredRecord * jsnum))
    (recs : list StoredRecord) (pageSize : Z) :
  (0 < pageSize)%Z ->
  concat (map (fun p =>
      match records_GET (list_collection rank recs)
              (mkRecordsQuery (Z.of_nat p) pageSize None None) with
      | Ok resp => records resp
      | Throw _ => []
      end)
    (seq 1 (Z.to_nat (totalPages (Z.of_nat (length recs)) pageSize))))
  = map (fun r => mkChromaRecord (st_id r) (st_document r) (st_metadata r) (st_embedding r)) recs.
Proof.
  intros Hps.
  pose proof (totalPages_bounds (Z.of_nat (length recs)) pageSize Hps) as Hb.
  set (tp := totalPages (Z.of_nat (length recs)) pageSize) in *.
  rewrite map_ext_in with
    (g := fun p => map (fun r => mkChromaRecord (st_id r) (st_document r) (st_metadata r)
                                   (st_embedding r))
                     (firstn (Z.to_nat pageSize) (skipn ((p - 1) * Z.to_nat pageSize) recs))).
  - rewrite <- (map_map (fun p => firstn (Z.to_nat pageSize) (skipn ((p - 1) * Z.to_nat pageSize) recs))
                 (map (fun r => mkChromaRecord (st_id r) (st_document r) (st_metadata r)
                                  (st_embedding r)))).
    rewrite <- concat_map. f_equal.
    rewrite (pages_concat _ _ 0). cbn [skipn Nat.mul]. apply firstn_all2.
    assert (Htp : (0 <= tp)%Z) by nia.
    apply Nat2Z.inj_le. rewrite Nat2Z.inj_mul, !Z2Nat.id by lia. lia.
  - intros p Hp. apply in_seq in Hp. rewrite records_GET_page. cbn [records].
    now rewrite page_offset_nat by lia.
Qed.

Lemma pages_cover_collection_witness :
  (0 < 3)%Z /\
  concat (map (fun p =>
      match records_GET (list_collection keep_order_rank ten_records)
              (mkRecordsQuery (Z.of_nat p) 3 None None) with
      | Ok resp => records resp
      | Throw _ => []
      end)
    (seq 1 (Z.to_nat (totalPages (Z.of_nat (length ten_records)) 3))))
  = map (fun r => mkChromaRecord (st_id r) (st_document r) (st_metadata r) (st_embedding r))
      ten_records.
Proof.
  split; [lia|]. apply pages_cover_collection. lia.
Defined.

Lemma records_GET_page_length (rank : string -> list StoredRecord -> list (StoredRecord * jsnum))
    (recs : list StoredRecord) (page pageSize : Z) :
  exists resp,
    records_GET (list_collection rank recs) (mkRecordsQuery page pageSize None None) = Ok resp
    /\ total resp = length recs
    /\ length (records resp)
       = Nat.min (Z.to_nat pageSize) (length recs - Z.to_nat ((page - 1) * pageSize)).
Proof.
  eexists. split; [apply records_GET_page|]. cbn [total records]. split; [reflexivity|].
  now rewrite length_map, length_firstn, length_skipn.
Qed.

(** For every page the controls can show, the [Pagination] label
    "Showing start to end of total" agrees with the route's response for
    that page (no filter): the response holds [end - start + 1] records and
    reports [total]; and the next-page button is enabled exactly when the
    next page holds records. *)
Theorem pagination_matches_route (rank : string -> list StoredRecord -> list (StoredRecord * jsnum))
    (recs : list StoredRecord) (page pageSize : Z) :
  (0 < pageSize)%Z ->
  (1 <= page <= totalPages (Z.of_nat (length recs)) pageSize)%Z ->
  exists resp,
    records_GET (list_collection rank recs) (mkRecordsQuery page pageSize None None) = Ok resp
    /\ Z.of_nat (total resp) = Z.of_nat (length recs)
    /\ (1 <= startRecord page pageSize (Z.of_nat (length recs)))%Z
    /\ Z.of_nat (length (records resp))
       = (endRecord page pageSize (Z.of_nat (length recs))
          - startRecord page pageSize (Z.of_nat (length recs)) + 1)%Z
    /\ (canGoNext page pageSize (Z.of_nat (length recs)) = true <->
        exists resp', records_GET (list_collection rank recs)
                        (mkRecordsQuery (page + 1) pageSize None None) = Ok resp'
                      /\ records resp' <> []).
Proof.
  intros Hps Hp.
  pose proof (totalPages_bounds (Z.of_nat (length recs)) pageSize Hps) as Hb.
  set (T := Z.of_nat (length recs)) in *.
  set (tp := totalPages T pageSize) in *.
  assert (HT : (0 < T)%Z) by nia.
  assert (Hoff : (0 <= (page - 1) * pageSize < T)%Z) by nia.
  destruct (records_GET_page_length rank recs page pageSize) as [resp [Hr [Ht Hl]]].
  exists resp. split; [exact Hr|]. split; [now rewrite Ht|].
  unfold startRecord, endRecord. destruct (Z.eqb_spec T 0) as [E|_]; [lia|].
  split; [nia|]. split.
  - rewrite Hl. set (X := ((page - 1) * pageSize)%Z) in *.
    replace (page * pageSize)%Z with (X + pageSize)%Z by (subst X; ring).
    subst T. lia.
  - unfold canGoNext. fold tp. rewrite Z.ltb_lt.
    destruct (records_GET_page_length rank recs (page + 1) pageSize) as [resp' [Hr' [_ Hl']]].
    replace (page + 1 - 1)%Z with page in Hl' by ring.
    split.
    + intros Hlt. exists resp'. split; [exact Hr'|].
      intros E. rewrite E in Hl'. cbn in Hl'.
      assert (Hnext : (page * pageSize < T)%Z) by nia.
      subst T. lia.
    + intros [resp'' [Hr'' Hne]]. rewrite Hr' in Hr''. injection Hr'' as <-.
      destruct (records resp') eqn:E; [contradiction|]. cbn in Hl'.
      assert (Hnext : (page * pageSize < T)%Z) by (subst T; lia).
      nia.
Qed.

Lemma pagination_matches_route_witness :
  (0 < 3)%Z /\ (1 <= 4 <= totalPages (Z.of_nat (length ten_records)) 3)%Z /\
  exists resp,
    records_GET (list_collection keep_order_rank ten_records) (mkRecordsQuery 4 3 None None)
      = Ok resp
    /\ Z.of_nat (total resp) = Z.of_nat (length ten_records)
    /\ (1 <= startRecord 4 3 (Z.of_nat (length ten_records)))%Z
    /\ Z.of_nat (length (records resp))
       = (endRecord 4 3 (Z.of_nat (length ten_records))
          - startRecord 4 3 (Z.of_nat (length ten_records)) + 1)%Z
    /\ (canGoNext 4 3 (Z.of_nat (length ten_records)) = true <->
        exists resp', records_GET (list_collection keep_order_rank ten_records)
                        (mkRecordsQuery (4 + 1) 3 None None) = Ok resp'
                      /\ records resp' <> []).
Proof.
  split; [lia|]. split; [vm_compute; split; discriminate|].
  apply pagination_matches_route; [lia|vm_compute; split; discriminate].
Defined.

(** *** The field catalog of [GET /api/metadata] *)

Lemma fm_set_keys (fm : FieldMap) (k : string) (i : FieldInfo) :
  map fst (fm_set fm k i)
  = if existsb (String.eqb k) (map fst fm) then map fst fm else app (map fst fm) [k].
Proof.
  induction fm as [|[k0 i0] fm IH]; [reflexivity|]. cbn [fm_set map fst existsb].
  destruct (String.eqb_spec k k0) as [->|Hne]; [reflexivity|].
  cbn [map fst]. rewrite IH. now destruct (existsb (String.eqb k) (map fst fm)).
Qed.

Lemma fm_get_in (fm : FieldMap) (k : string) :
  fm_get fm k <> None <-> In k (map fst fm).
Proof.
  induction fm as [|[k0 i0] fm IH]; cbn [fm_get map fst In].
  - split; [now intros H; apply H|intros []].
  - destruct (String.eqb_spec k k0) as [->|Hne].
    + split; [now left|discriminate].
    + rewrite IH. split; [now right|intros [E|H]; [congruence|exact H]].
Qed.

Lemma add_type_spec (ts : list string) (t : string) :
  NoDup ts -> NoDup (add_type ts t) /\ (forall x, In x (add_type ts t) <-> In x ts \/ x = t).
Proof.
  intros Hts. unfold add_type. destruct (existsb (String.eqb t) ts) eqn:E.
  - apply existsb_exists in E as [y [Hy Ey]]. apply String.eqb_eq in Ey as <-.
    split; [exact Hts|]. intros x. split; [now left|intros [H| ->]; assumption].
  - assert (Hn : ~ In t ts).
    { intros H. assert (existsb (String.eqb t) ts = true) by
        (apply existsb_exists; exists t; split; [exact H|apply String.eqb_refl]).
      congruence. }
    split.
    + apply NoDup_app; [exact Hts|constructor; [intros []|constructor]|].
      intros x Hx [<-|[]]. contradiction.
    + intros x. rewrite in_app_iff. cbn [In]. intuition (subst; auto).
Qed.

Lemma observe_catalog (h : Heap) (seen : list (string * mval)) (fm : FieldMap)
    (kv : string * mval) :
  catalog_of h seen fm -> catalog_of h (app seen [kv]) (observe h fm kv).
Proof.
  destruct kv as [key v]. intros [Hnd [Hk Ht]]. unfold observe.
  set (fld := match fm_get fm key with Some i => i | None => mkFieldInfo [] [] end).
  assert (Hfld : NoDup (types fld) /\
                 forall t, In t (types fld) <-> exists v', In (key, v') seen /\ detectType h v' = t).
  { unfold fld. destruct (fm_get fm key) as [i|] eqn:E; [exact (Ht key i E)|].
    split; [constructor|]. intros t. cbn [types In]. split; [intros []|].
    intros [v' [Hin _]]. exfalso. apply (proj2 (fm_get_in fm key)); [|exact E].
    apply Hk. now exists v'. }
  destruct Hfld as [Hfnd Hfin].
  destruct (add_type_spec (types fld) (detectType h v) Hfnd) as [Hand Hain].
  split; [|split].
  - rewrite fm_set_keys. destruct (existsb (String.eqb key) (map fst fm)) eqn:E; [exact Hnd|].
    apply NoDup_app; [exact Hnd|constructor; [intros []|constructor]|].
    intros x Hx [<-|[]]. assert (existsb (String.eqb key) (map fst fm) = true)
      by (apply existsb_exists; exists key; split; [exact Hx|apply String.eqb_refl]).
    congruence.
  - intros k. rewrite fm_set_keys.
    assert (Hr : (exists v', In (k, v') (app seen [(key, v)]))
                 <-> (exists v', In (k, v') seen) \/ k = key).
    { split.
      - intros [v' Hv']. apply in_app_iff in Hv' as [H|[E|[]]]; [left; now exists v'|].
        right. now injection E as ->.
      - intros [[v' H]| ->]; [exists v'; apply in_app_iff; now left|].
        exists v. apply in_app_iff. right. now left. }
    rewrite Hr, <- Hk.
    destruct (existsb (String.eqb key) (map fst fm)) eqn:E.
    + apply existsb_exists in E as [y [Hy Ey]]. apply String.eqb_eq in Ey as <-.
      split; [now left|intros [H| ->]; assumption].
    + rewrite in_app_iff. cbn [In]. intuition (subst; auto).
  - intros k i. rewrite fm_get_set. destruct (String.eqb_spec k key) as [->|Hne].
    + intros E. injection E as <-. cbn [types]. split; [exact Hand|]. intros t.
      rewrite Hain, Hfin. split.
      * intros [[v' [H1 H2]]| ->]; [exists v'; split; [apply in_app_iff; now left|exact H2]|].
        exists v. split; [apply in_app_iff; right; now left|reflexivity].
      * intros [v' [Hin Hd]]. apply in_app_iff in Hin as [Hin|[E|[]]];
          [left; now exists v'|]. injection E as <-. now right.
    + intros E. destruct (Ht k i E) as [Hn Hi]. split; [exact Hn|]. intros t.
      rewrite Hi. split; intros [v' [Hin Hd]]; exists v'; split; try exact Hd.
      * apply in_app_iff. now left.
      * apply in_app_iff in Hin as [Hin|[E'|[]]]; [exact Hin|]. injection E' as ->. congruence.
Qed.

Lemma analyze_catalog_aux (h : Heap) (mds : list (option (list (string * mval))))
    (seen : list (string * mval)) (fm : FieldMap) :
  catalog_of h seen fm ->
  catalog_of h (app seen (concat (map (fun md => match md with Some e => e | None => [] end) mds)))
    (fold_left (fun fm md =>
        match md with
        | None => fm
        | Some entries => fold_left (observe h) entries fm
        end) mds fm).
Proof.
  revert seen fm. induction mds as [|md mds IH]; intros seen fm Hc.
  - cbn. now rewrite app_nil_r.
  - cbn [fold_left map concat]. rewrite app_assoc. apply IH.
    destruct md as [entries|]; [|now rewrite app_nil_r].
    clear IH. revert seen fm Hc. induction entries as [|kv entries IHe]; intros seen fm Hc.
    + cbn. now rewrite app_nil_r.
    + cbn [fold_left]. replace (app seen (kv :: entries)) with (app (app seen [kv]) entries)
        by now rewrite <- app_assoc.
      apply IHe, observe_catalog, Hc.
Qed.

(** The metadata route's field catalog: each key of a sampled (non-null)
    metadata object appears exactly once among the returned fields, and no
    other; the types recorded for a key are, without repetition, exactly
    the detected types of the values it takes in the sample. *)
Theorem analyze_catalog (h : Heap) (mds : list (option (list (string * mval)))) :
  NoDup (map mf_name (fields_of (analyze h mds))) /\
  (forall k, In k (map mf_name (fields_of (analyze h mds)))
             <-> exists md v, In (Some md) mds /\ In (k, v) md) /\
  (forall k i, fm_get (analyze h mds) k = Some i ->
     NoDup (types i) /\
     forall t, In t (types i)
               <-> exists md v, In (Some md) mds /\ In (k, v) md /\ detectType h v = t).
Proof.
  assert (Hnames : forall fm, map mf_name (fields_of fm) = map fst fm).
  { intros fm. unfold fields_of. rewrite map_map. apply map_ext. now intros [k i]. }
  assert (Hseen : forall k v, In (k, v) (concat (map (fun md => match md with
                                                      | Some e => e | None => [] end) mds))
                              <-> exists md, In (Some md) mds /\ In (k, v) md).
  { intros k v. rewrite in_concat. split.
    - intros [l [Hl Hin]]. apply in_map_iff in Hl as [[md|] [<- Hmd]]; [|destruct Hin].
      now exists md.
    - intros [md [Hmd Hin]]. exists md. split; [|exact Hin].
      apply in_map_iff. now exists (Some md). }
  destruct (analyze_catalog_aux h mds [] [] ltac:(split; [constructor|split];
                                                 [intros k; split; [intros []|intros [v []]]
                                                 |intros k i E; discriminate E]))
    as [Hnd [Hk Ht]].
  cbn [app] in Hnd, Hk, Ht. fold (analyze h mds) in Hnd, Hk, Ht.
  rewrite Hnames. split; [exact Hnd|split].
  - intros k. rewrite Hk. split.
    + intros [v Hv]. apply Hseen in Hv as [md [H1 H2]]. now exists md, v.
    + intros [md [v [H1 H2]]]. exists v. apply Hseen. now exists md.
  - intros k i E. destruct (Ht k i E) as [Hn Hi]. split; [exact Hn|]. intros t.
    rewrite Hi. split.
    + intros [v [Hv Hd]]. apply Hseen in Hv as [md [H1 H2]]. now exists md, v.
    + intros [md [v [H1 [H2 Hd]]]]. exists v. split; [|exact Hd]. apply Hseen. now exists md.
Qed.

(** *** Keyboard page navigation in [page.tsx] *)

(** The arrow-key handlers keep the page between 1 and the last page (1 when
    there are no records), move it by at most one, and leave it alone while
    a search is active. *)
Theorem page_handlers_keep_range (page total pageSize : Z) (isSearchActive : bool) :
  (1 <= page <= Z.max 1 (totalPages total pageSize))%Z ->
  (1 <= handlePreviousPage page isSearchActive <= Z.max 1 (totalPages total pageSize))%Z
  /\ (1 <= handleNextPage page total pageSize isSearchActive
        <= Z.max 1 (totalPages total pageSize))%Z
  /\ (Z.abs (handlePreviousPage page isSearchActive - page) <= 1)%Z
  /\ (Z.abs (handleNextPage page total pageSize isSearchActive - page) <= 1)%Z
  /\ (isSearchActive = true ->
      handlePreviousPage page isSearchActive = page
      /\ handleNextPage page total pageSize isSearchActive = page).
Proof.
  intros Hp. unfold handlePreviousPage, handleNextPage.
  destruct isSearchActive; cbn [negb]; rewrite ?andb_false_r, ?andb_true_r.
  - repeat split; lia.
  - destruct (Z.ltb_spec 1 page), (Z.ltb_spec page (totalPages total pageSize));
      repeat split; try lia; discriminate.
Qed.

Lemma page_handlers_keep_range_witness :
  (1 <= 19 <= Z.max 1 (totalPages 456 25))%Z
  /\ (1 <= handleNextPage 19 456 25 false <= Z.max 1 (totalPages 456 25))%Z.
Proof.
  split; [vm_compute; split; discriminate|].
  apply (page_handlers_keep_range 19 456 25 false). vm_compute; split; discriminate.
Defined.

(** *** Re-editing a filter: [parseValue] after [valueToString] *)

Lemma split_aux_cur (sep : ascii) (cur x : list ascii) :
  split_aux sep cur x
  = match split_aux sep [] x with p :: ps => app (rev cur) p :: ps | [] => [] end.
Proof.
  revert cur. induction x as [|c x IH]; intros cur.
  - cbn. now rewrite app_nil_r.
  - cbn [split_aux]. destruct (Ascii.eqb c sep).
    + cbn. now rewrite app_nil_r.
    + rewrite (IH (c :: cur)), (IH [c]).
      destruct (split_aux sep [] x) as [|p ps]; [reflexivity|].
      cbn. now rewrite <- app_assoc.
Qed.

Lemma split_aux_nonempty (sep : ascii) (cur x : list ascii) : split_aux sep cur x <> [].
Proof.
  revert cur. induction x as [|c x IH]; intros cur; cbn; [discriminate|].
  destruct (Ascii.eqb c sep); [discriminate|apply IH].
Qed.

Lemma split_aux_app_last (sep : ascii) (cur x w : list ascii) :
  Forall (fun c => c <> sep) w ->
  exists ps p, split_aux sep cur x = app ps [p]
               /\ split_aux sep cur (app x w) = app ps [app p w].
Proof.
  intros Hw. revert cur. induction x as [|c x IH]; intros cur.
  - exists [], (rev cur). split; [reflexivity|]. cbn. now apply split_aux_no_sep.
  - cbn [split_aux app]. destruct (Ascii.eqb c sep).
    + destruct (IH []) as [ps [p [H1 H2]]]. exists (rev cur :: ps), p.
      rewrite H1, H2. split; reflexivity.
    + apply IH.
Qed.

Lemma trim_start_spaces_app (ws l : list ascii) :
  Forall (fun c => is_js_space c = true) ws -> trim_start (app ws l) = trim_start l.
Proof. induction 1 as [|c ws Hc _ IH]; [reflexivity|]. cbn. now rewrite Hc. Qed.

Lemma trim_start_app_nonempty (p q : list ascii) :
  trim_start p <> [] -> trim_start (app p q) = app (trim_start p) q.
Proof.
  induction p as [|c p IH]; cbn; [contradiction|].
  destruct (is_js_space c); [exact IH|reflexivity].
Qed.

Lemma trim_start_all_spaces (p : list ascii) :
  trim_start p = [] -> Forall (fun c => is_js_space c = true) p.
Proof.
  induction p as [|c p IH]; cbn; [constructor|].
  destruct (is_js_space c) eqn:Hc; [intros H; constructor; auto|discriminate].
Qed.

Lemma trim_list_spaces_left (ws p : list ascii) :
  Forall (fun c => is_js_space c = true) ws -> trim_list (app ws p) = trim_list p.
Proof. intros Hws. unfold trim_list. now rewrite trim_start_spaces_app. Qed.

Lemma trim_list_spaces_right (p ws : list ascii) :
  Forall (fun c => is_js_space c = true) ws -> trim_list (app p ws) = trim_list p.
Proof.
  intros Hws. unfold trim_list.
  destruct (trim_start p) as [|x r] eqn:Hp.
  - apply trim_start_all_spaces in Hp.
    rewrite trim_start_spaces_app by exact Hp.
    rewrite <- (app_nil_r ws) at 1. rewrite trim_start_spaces_app by exact Hws. reflexivity.
  - rewrite trim_start_app_nonempty by (rewrite Hp; discriminate). rewrite Hp.
    rewrite rev_app_distr, trim_start_spaces_app by (apply Forall_rev, Hws). reflexivity.
Qed.

Lemma trim_list_split (l : list ascii) :
  exists ws1 ws2, l = app ws1 (app (trim_list l) ws2)
    /\ Forall (fun c => is_js_space c = true) ws1
    /\ Forall (fun c => is_js_space c = true) ws2.
Proof.
  destruct (trim_start_split l) as [d1 [H1 Hd1]].
  destruct (trim_start_split (rev (trim_start l))) as [d2 [H2 Hd2]].
  exists d1, (rev d2). split; [|split; [exact Hd1|apply Forall_rev, Hd2]].
  unfold trim_list. rewrite H1 at 1. f_equal.
  rewrite <- rev_app_distr, <- H2. now rewrite rev_involutive.
Qed.

Lemma split_trim_pieces (sep : ascii) (l : list ascii) :
  is_js_space sep = false ->
  map trim_list (split_aux sep [] (trim_list l)) = map trim_list (split_aux sep [] l).
Proof.
  intros Hsep. destruct (trim_list_split l) as [ws1 [ws2 [Hl [H1 H2]]]].
  rewrite Hl at 2. set (c := trim_list l).
  assert (Hns : forall ws, Forall (fun x => is_js_space x = true) ws ->
                           Forall (fun x => x <> sep) ws).
  { intros ws Hws. eapply Forall_impl; [|exact Hws]. intros x Hx E. congruence. }
  rewrite split_aux_no_sep_app by (apply Hns, H1). rewrite app_nil_r.
  rewrite (split_aux_cur sep (rev ws1)), rev_involutive.
  destruct (split_aux_app_last sep [] c ws2 (Hns _ H2)) as [ps [p [E1 E2]]].
  rewrite E2, E1. destruct ps as [|q ps]; cbn [app map].
  - now rewrite trim_list_spaces_left, trim_list_spaces_right by assumption.
  - rewrite trim_list_spaces_left by exact H1. f_equal. rewrite !map_app. cbn [map].
    now rewrite trim_list_spaces_right by exact H2.
Qed.

Lemma join_comma_pieces (vs : list string) :
  vs <> [] ->
  Forall (fun v => Forall (fun c => c <> ","%char) (list_ascii_of_string v)
                   /\ trim_list (list_ascii_of_string v) = list_ascii_of_string v) vs ->
  map trim_list (split_aux "," [] (list_ascii_of_string (join ", " vs)))
  = map list_ascii_of_string vs.
Proof.
  intros Hne Hvs. induction Hvs as [|v vs [Hc Ht] Hvs IH]; [contradiction|].
  destruct vs as [|w vs].
  - cbn [join map]. rewrite split_aux_no_sep by exact Hc. cbn [map rev app]. now rewrite Ht.
  - change (join ", " (v :: w :: vs)) with (v ++ ", " ++ join ", " (w :: vs)).
    rewrite !list_ascii_of_string_app. cbn [list_ascii_of_string app].
    rewrite split_aux_no_sep_app by exact Hc. rewrite app_nil_r.
    cbn [split_aux]. change (Ascii.eqb "," ",") with true. cbn iota.
    change (Ascii.eqb " " ",") with false. cbn iota.
    rewrite split_aux_cur. specialize (IH ltac:(discriminate)).
    pose proof (split_aux_nonempty "," [] (list_ascii_of_string (join ", " (w :: vs)))) as Hn.
    destruct (split_aux "," [] (list_ascii_of_string (join ", " (w :: vs)))) as [|p ps];
      [contradiction|].
    cbn [map rev app] in IH |- *. rewrite rev_involutive, Ht.
    change (" "%char :: p) with (app [" "%char] p).
    rewrite trim_list_spaces_left by (repeat constructor). now rewrite IH.
Qed.

(** Re-opening the filter editor on an [$in] filter and applying it
    unchanged gives back the same list when no element contains a comma
    or has white space at its ends; an empty list comes back as [[""]]. *)
Theorem parseValue_valueToString_in (vs : list string) :
  vs <> [] ->
  Forall (fun v => Forall (fun c => c <> ","%char) (list_ascii_of_string v) /\ trim v = v) vs ->
  parseValue (valueToString (JArr (map JStr vs))) OpIn = JArr (map JStr vs)
  /\ parseValue (valueToString (JArr [])) OpIn = JArr [JStr ""].
Proof.
  intros Hne Hvs. split; [|reflexivity].
  unfold valueToString, parseValue. rewrite map_map. cbn [js_String]. rewrite map_id.
  f_equal. unfold split, trim. rewrite list_ascii_of_string_of_list_ascii.
  rewrite map_map.
  rewrite map_ext with (g := fun p => JStr (string_of_list_ascii (trim_list p)))
    by (intros p; now rewrite list_ascii_of_string_of_list_ascii).
  rewrite <- (map_map trim_list (fun p => JStr (string_of_list_ascii p))).
  rewrite split_trim_pieces by reflexivity.
  rewrite join_comma_pieces; [|exact Hne|].
  - rewrite map_map. apply map_ext. intros v. now rewrite string_of_list_ascii_of_string.
  - eapply Forall_impl; [|exact Hvs]. intros v [Hc Ht]. split; [exact Hc|].
    apply (f_equal list_ascii_of_string) in Ht. unfold trim in Ht.
    now rewrite list_ascii_of_string_of_list_ascii in Ht.
Qed.

Lemma parseValue_valueToString_in_witness :
  parseValue (valueToString (JArr (map JStr ["news"; "blog post"]))) OpIn
    = JArr (map JStr ["news"; "blog post"])
  /\ parseValue (valueToString (JArr [])) OpIn = JArr [JStr ""].
Proof.
  apply parseValue_valueToString_in; [discriminate|].
  repeat constructor; discriminate.
Defined.

(** *** Re-editing a number filter: [Number] after [Number.prototype.toString] *)

Lemma decimal_digit_facts (c : ascii) :
  is_decimal_digit c = true ->
  is_js_space c = false /\ Ascii.eqb c "+" = false /\ Ascii.eqb c "-" = false
  /\ Ascii.eqb c "." = false /\ Ascii.eqb c "e" = false /\ Ascii.eqb c "E" = false
  /\ (Ascii.eqb c "x" || Ascii.eqb c "X" || Ascii.eqb c "o" || Ascii.eqb c "O"
      || Ascii.eqb c "b" || Ascii.eqb c "B") = false
  /\ Ascii.eqb c "I" = false.
Proof.
  intros H.
  pose proof (forall_ascii (fun c => implb (is_decimal_digit c)
    (negb (is_js_space c) && negb (Ascii.eqb c "+") && negb (Ascii.eqb c "-")
     && negb (Ascii.eqb c ".") && negb (Ascii.eqb c "e") && negb (Ascii.eqb c "E")
     && negb (Ascii.eqb c "x" || Ascii.eqb c "X" || Ascii.eqb c "o" || Ascii.eqb c "O"
      || Ascii.eqb c "b" || Ascii.eqb c "B") && negb (Ascii.eqb c "I")))
    ltac:(vm_compute; reflexivity) c) as F.
  cbv beta in F. rewrite H in F. cbn [implb] in F.
  repeat match type of F with
  | (_ && _)%bool = true => apply andb_prop in F; destruct F as [F ?]
  end.
  repeat match goal with
  | Hn : negb _ = true |- _ => apply negb_true_iff in Hn
  end.
  repeat split; assumption.
Qed.

Lemma digit_char_value (n : nat) :
  n < 10 -> digit_value 10 (ascii_of_nat (48 + n)) = Some n.
Proof.
  intros H. do 10 (destruct n as [|n]; [vm_compute; reflexivity|]). lia.
Qed.

Lemma digits_value_app (b : nat) (acc : Z) (l1 l2 : list ascii) :
  digits_value b acc (app l1 l2)
  = match digits_value b acc l1 with Some a => digits_value b a l2 | None => None end.
Proof.
  revert acc. induction l1 as [|c l1 IH]; intros acc; [reflexivity|].
  cbn [app digits_value]. destruct (digit_value b c); [apply IH|reflexivity].
Qed.

Lemma digits_value_digits (acc : Z) (l : list ascii) :
  all_digits l ->
  digits_value 10 acc l = Some (acc * 10 ^ Z.of_nat (length l) + decimal_value l)%Z.
Proof.
  intros Hl. revert acc. induction Hl as [|c l Hc Hl IH]; intros acc.
  - cbn [digits_value]. f_equal. unfold decimal_value. cbn. ring.
  - unfold is_decimal_digit in Hc. unfold decimal_value. cbn [digits_value length].
    destruct (digit_value 10 c) as [d|]; [|discriminate].
    rewrite !IH. rewrite (Nat2Z.inj_succ (length l)), Z.pow_succ_r by lia.
    change (Z.of_nat 10) with 10%Z. f_equal. ring.
Qed.

Lemma decimal_value_app (l1 l2 : list ascii) :
  all_digits l1 -> all_digits l2 ->
  decimal_value (app l1 l2) = (decimal_value l1 * 10 ^ Z.of_nat (length l2) + decimal_value l2)%Z.
Proof.
  intros H1 H2. unfold decimal_value at 1.
  rewrite digits_value_app, (digits_value_digits 0 l1 H1), (digits_value_digits _ l2 H2).
  f_equal.
Qed.

Lemma zeros_digits (z : nat) : all_digits (repeat "0"%char z).
Proof. induction z; constructor; auto. Qed.

Lemma decimal_value_zeros (z : nat) : decimal_value (repeat "0"%char z) = 0%Z.
Proof.
  unfold decimal_value. rewrite (digits_value_digits 0 _ (zeros_digits z)).
  induction z as [|z IH]; [reflexivity|].
  unfold decimal_value in IH. cbn [repeat digits_value].
  change (digit_value 10 "0") with (Some 0). cbn -[Z.pow]. exact IH.
Qed.

Lemma digit_char_mod (m : Z) :
  (0 <= m)%Z ->
  is_decimal_digit (ascii_of_nat (48 + Z.to_nat (m mod 10))) = true
  /\ decimal_value [ascii_of_nat (48 + Z.to_nat (m mod 10))] = (m mod 10)%Z.
Proof.
  intros Hm.
  assert (Hd : digit_value 10 (ascii_of_nat (48 + Z.to_nat (m mod 10)))
               = Some (Z.to_nat (m mod 10))).
  { apply digit_char_value. pose proof (Z.mod_pos_bound m 10). lia. }
  unfold is_decimal_digit, decimal_value. cbn [digits_value]. rewrite Hd.
  split; [reflexivity|]. pose proof (Z.mod_pos_bound m 10). lia.
Qed.

Lemma Z_digits_rev_spec (fuel : nat) (m : Z) :
  (0 < fuel)%nat -> (0 <= m < 10 ^ Z.of_nat fuel)%Z ->
  rev (Z_digits_rev fuel m) <> []
  /\ all_digits (rev (Z_digits_rev fuel m))
  /\ decimal_value (rev (Z_digits_rev fuel m)) = m.
Proof.
  revert m. induction fuel as [|f IH]; intros m Hf Hm; [lia|].
  destruct (digit_char_mod m (proj1 Hm)) as [Hd Hv].
  cbn [Z_digits_rev]. destruct (Z.ltb_spec m 10).
  - cbn [rev app]. split; [discriminate|]. split; [repeat constructor; exact Hd|].
    rewrite Hv. apply Z.mod_small. lia.
  - assert (Hf' : (0 < f)%nat).
    { destruct f; [|lia]. cbn in Hm. lia. }
    assert (Hm' : (0 <= m / 10 < 10 ^ Z.of_nat f)%Z).
    { split; [apply Z.div_pos; lia|]. apply Z.div_lt_upper_bound; [lia|].
      rewrite Nat2Z.inj_succ, Z.pow_succ_r in Hm by lia. lia. }
    destruct (IH (m / 10)%Z Hf' Hm') as [Hne [Hall Hval]].
    cbn [rev]. split; [now destruct (rev (Z_digits_rev f (m / 10))) |].
    assert (Hdl : all_digits [ascii_of_nat (48 + Z.to_nat (m mod 10))])
      by (repeat constructor; exact Hd).
    split; [apply Forall_app; split; assumption|].
    rewrite decimal_value_app by assumption. rewrite Hval, Hv.
    cbn [length]. rewrite (Z.div_mod m 10) at 3 by lia. lia.
Qed.

Lemma Z_digits_spec (m : Z) :
  (0 <= m)%Z ->
  Z_digits m <> [] /\ all_digits (Z_digits m) /\ decimal_value (Z_digits m) = m.
Proof.
  intros Hm. apply Z_digits_rev_spec; [lia|]. split; [exact Hm|].
  destruct (Z.eq_dec m 0) as [->|Hm0]; [apply Z.pow_pos_nonneg; lia|].
  destruct (Z.log2_spec m) as [_ Hlt]; [lia|].
  rewrite Nat2Z.inj_succ, Z2Nat.id by apply Z.log2_nonneg.
  eapply Z.lt_le_trans; [exact Hlt|].
  apply Z.pow_le_mono_l. lia.
Qed.

Lemma drop_zeros_spec (l : list ascii) (n : Z) :
  exists z, l = app (repeat "0"%char z) (fst (drop_zeros l n))
            /\ snd (drop_zeros l n) = (n + Z.of_nat z)%Z.
Proof.
  revert n. induction l as [|c l IH]; intros n.
  - exists 0%nat. split; cbn; [reflexivity|lia].
  - cbn [drop_zeros]. destruct (Ascii.eqb_spec c "0") as [->|Hc].
    + destruct (IH (n + 1)%Z) as [z [H1 H2]]. exists (S z).
      split; [cbn; now rewrite <- H1|rewrite H2; lia].
    + exists 0%nat. split; cbn; [reflexivity|lia].
Qed.


Lemma number_char_facts (c : ascii) :
  number_char c = true ->
  is_js_space c = false
  /\ (Ascii.eqb c "x" || Ascii.eqb c "X" || Ascii.eqb c "o" || Ascii.eqb c "O"
      || Ascii.eqb c "b" || Ascii.eqb c "B") = false.
Proof.
  intros H.
  pose proof (forall_ascii (fun c => implb (number_char c)
    (negb (is_js_space c)
     && negb (Ascii.eqb c "x" || Ascii.eqb c "X" || Ascii.eqb c "o" || Ascii.eqb c "O"
      || Ascii.eqb c "b" || Ascii.eqb c "B")))
    ltac:(vm_compute; reflexivity) c) as F.
  cbv beta in F. rewrite H in F. cbn [implb] in F.
  apply andb_prop in F. destruct F as [F1 F2].
  apply negb_true_iff in F1, F2. split; assumption.
Qed.

Lemma digits_number_chars (l : list ascii) :
  all_digits l -> Forall (fun c => number_char c = true) l.
Proof.
  apply Forall_impl. intros c H. unfold number_char. now rewrite H.
Qed.

Lemma trim_list_no_spaces (l : list ascii) :
  Forall (fun c => is_js_space c = false) l -> trim_list l = l.
Proof.
  assert (Ht : forall l, Forall (fun c => is_js_space c = false) l -> trim_start l = l).
  { intros [|c r] H; [reflexivity|]. inversion H; subst. cbn. now rewrite H2. }
  intros H. unfold trim_list. rewrite (Ht l H), Ht, rev_involutive; [reflexivity|].
  now apply Forall_rev.
Qed.

Lemma parse_non_decimal_number_chars (l : list ascii) :
  Forall (fun c => number_char c = true) l -> parse_non_decimal l = None.
Proof.
  intros H. destruct l as [|z [|p [|d r]]]; try reflexivity.
  inversion H as [|? ? _ H']; subst. inversion H' as [|? ? Hp _]; subst.
  destruct (number_char_facts p Hp) as [_ Hx].
  repeat rewrite orb_false_iff in Hx.
  destruct Hx as [[[[[E1 E2] E3] E4] E5] E6].
  cbn [parse_non_decimal]. rewrite E1, E2, E3, E4, E5, E6. cbn [orb]. destruct (negb (Ascii.eqb z "0")); reflexivity.
Qed.

Lemma span_digits_app (ds r : list ascii) :
  all_digits ds ->
  match r with c :: _ => is_decimal_digit c = false | [] => True end ->
  span_digits (app ds r) = (ds, r).
Proof.
  intros Hds Hr. induction Hds as [|c ds Hc _ IH].
  - destruct r as [|c r]; [reflexivity|]. cbn. now rewrite Hr.
  - cbn [app span_digits]. rewrite Hc, IH. reflexivity.
Qed.

Lemma exponent_string_spec (x : Z) :
  Forall (fun c => number_char c = true) (exponent_string x)
  /\ parse_exponent ("e"%char :: exponent_string x) = Some x.
Proof.
  destruct (Z_digits_spec (Z.abs x) (Z.abs_nonneg x)) as [Hne [Hall Hval]].
  unfold exponent_string. split.
  - constructor; [destruct (Z.ltb x 0); reflexivity|]. now apply digits_number_chars.
  - cbn [parse_exponent].
    change (Ascii.eqb "e" "e" || Ascii.eqb "e" "E")%bool with true. cbv iota.
    assert (Hs : span_digits (Z_digits (Z.abs x)) = (Z_digits (Z.abs x), [])).
    { rewrite <- (app_nil_r (Z_digits (Z.abs x))) at 1. now apply span_digits_app. }
    destruct (Z.ltb_spec x 0);
      [change (Ascii.eqb "-" "+") with false; change (Ascii.eqb "-" "-") with true
      |change (Ascii.eqb "+" "+") with true];
      cbv iota; rewrite Hs; destruct (Z_digits (Z.abs x)); try contradiction;
      rewrite Hval; f_equal; lia.
Qed.


Lemma parse_unsigned_decimal_digits (l ip r1 fp r2 : list ascii) (x : Z) :
  digit_head l ->
  span_digits l = (ip, r1) ->
  match r1 with
  | c :: r' => if Ascii.eqb c "." then span_digits r' else ([], r1)
  | [] => ([], r1)
  end = (fp, r2) ->
  parse_exponent r2 = Some x ->
  parse_unsigned_decimal l
  = Some (NDec (decimal_value (app ip fp)) (x - Z.of_nat (length fp))).
Proof.
  intros Hd Hs Hf He. destruct l as [|d r]; [contradiction|]. unfold parse_unsigned_decimal.
  destruct (String.eqb_spec (string_of_list_ascii (d :: r)) "Infinity") as [E|_].
  { cbn in E. injection E as Ed _. subst d. discriminate Hd. }
  rewrite Hs, Hf.
  assert (Hip : ip <> []).
  { cbn [span_digits] in Hs. cbn in Hd. rewrite Hd in Hs. destruct (span_digits r).
    injection Hs as <- _. discriminate. }
  destruct (app ip fp) as [|c m] eqn:Hm.
  - apply app_eq_nil in Hm. now destruct Hm.
  - now rewrite He.
Qed.

Lemma Forall_repeat_zeros (z : nat) :
  Forall (fun c => number_char c = true) (repeat "0"%char z).
Proof. apply digits_number_chars, zeros_digits. Qed.

Lemma digit_head_app (l1 l2 : list ascii) :
  digit_head l1 -> digit_head (app l1 l2).
Proof. destruct l1; [contradiction|]. exact (fun H => H). Qed.

Lemma number_layout_fraction (s : list ascii) (n : nat) :
  all_digits s -> (0 < n < length s)%nat ->
  Forall (fun c => number_char c = true) (app (firstn n s) ("."%char :: skipn n s))
  /\ digit_head (app (firstn n s) ("."%char :: skipn n s))
  /\ parse_unsigned_decimal (app (firstn n s) ("."%char :: skipn n s))
     = Some (NDec (decimal_value s) (Z.of_nat n - Z.of_nat (length s))).
Proof.
  intros Hs Hn.
  pose proof (firstn_skipn n s) as Hfs.
  rewrite <- Hfs in Hs. apply Forall_app in Hs. destruct Hs as [H1 H2].
  assert (Hh : digit_head (firstn n s)).
  { destruct s as [|c s']; [cbn in Hn; lia|]. destruct n as [|n']; [lia|].
    cbn [firstn]. cbn in H1. now inversion H1. }
  split; [apply Forall_app; split; [now apply digits_number_chars|constructor; [reflexivity|now apply digits_number_chars]]|].
  split; [now apply digit_head_app|].
  rewrite (parse_unsigned_decimal_digits _ (firstn n s) ("."%char :: skipn n s) (skipn n s) [] 0%Z).
  - rewrite Hfs. f_equal. f_equal. rewrite length_skipn. lia.
  - now apply digit_head_app.
  - apply span_digits_app; [exact H1|reflexivity].
  - change (Ascii.eqb "." ".") with true. cbv iota.
    rewrite <- (app_nil_r (skipn n s)) at 1. now apply span_digits_app.
  - reflexivity.
Qed.

Lemma number_layout_small (s : list ascii) (z : nat) :
  all_digits s ->
  Forall (fun c => number_char c = true) ("0"%char :: "."%char :: app (repeat "0"%char z) s)
  /\ digit_head ("0"%char :: "."%char :: app (repeat "0"%char z) s)
  /\ parse_unsigned_decimal ("0"%char :: "."%char :: app (repeat "0"%char z) s)
     = Some (NDec (decimal_value s) (- Z.of_nat z - Z.of_nat (length s))).
Proof.
  intros Hs.
  assert (Hzs : all_digits (app (repeat "0"%char z) s))
    by (apply Forall_app; split; [apply zeros_digits|exact Hs]).
  split; [repeat constructor; now apply digits_number_chars|].
  split; [reflexivity|].
  rewrite (parse_unsigned_decimal_digits _ ["0"%char] ("."%char :: app (repeat "0"%char z) s)
             (app (repeat "0"%char z) s) [] 0%Z).
  - f_equal. f_equal.
    + change (app ["0"%char] (app (repeat "0"%char z) s))
        with (app (repeat "0"%char 1) (app (repeat "0"%char z) s)).
      rewrite decimal_value_app, decimal_value_app, !decimal_value_zeros
        by (apply zeros_digits || exact Hs || exact Hzs). ring.
    + rewrite length_app, repeat_length. lia.
  - reflexivity.
  - apply (span_digits_app ["0"%char]); [repeat constructor|reflexivity].
  - change (Ascii.eqb "." ".") with true. cbv iota.
    rewrite <- (app_nil_r (app (repeat "0"%char z) s)) at 1. now apply span_digits_app.
  - reflexivity.
Qed.

Lemma number_layout_exponent (s : list ascii) (x : Z) :
  digit_head s -> all_digits s ->
  Forall (fun c => number_char c = true)
    (match s with
     | [d] => d :: "e"%char :: exponent_string x
     | d :: rest => d :: "."%char :: app rest ("e"%char :: exponent_string x)
     | [] => []
     end)
  /\ digit_head
    (match s with
     | [d] => d :: "e"%char :: exponent_string x
     | d :: rest => d :: "."%char :: app rest ("e"%char :: exponent_string x)
     | [] => []
     end)
  /\ parse_unsigned_decimal
    (match s with
     | [d] => d :: "e"%char :: exponent_string x
     | d :: rest => d :: "."%char :: app rest ("e"%char :: exponent_string x)
     | [] => []
     end)
     = Some (NDec (decimal_value s) (x - (Z.of_nat (length s) - 1))).
Proof.
  intros Hh Hs. destruct (exponent_string_spec x) as [Hx He].
  destruct s as [|d rest]; [contradiction|].
  assert (Hd : is_decimal_digit d = true) by exact Hh.
  assert (Hr : all_digits rest) by now inversion Hs.
  destruct rest as [|d2 rest'].
  - split; [constructor; [unfold number_char; now rewrite Hd|constructor; [reflexivity|exact Hx]]|].
    split; [exact Hh|].
    rewrite (parse_unsigned_decimal_digits _ [d] ("e"%char :: exponent_string x) [] ("e"%char :: exponent_string x) x).
    + rewrite app_nil_r. f_equal.
    + exact Hh.
    + apply (span_digits_app [d]); [now repeat constructor|reflexivity].
    + reflexivity.
    + exact He.
  - set (rest := d2 :: rest') in *.
    split.
    { constructor; [unfold number_char; now rewrite Hd|].
      constructor; [reflexivity|]. apply Forall_app. split; [now apply digits_number_chars|].
      now constructor. }
    split; [exact Hh|].
    rewrite (parse_unsigned_decimal_digits _ [d] ("."%char :: app rest ("e"%char :: exponent_string x))
               rest ("e"%char :: exponent_string x) x).
    + f_equal. f_equal. cbn [length]. lia.
    + exact Hh.
    + apply (span_digits_app [d]); [now repeat constructor|reflexivity].
    + change (Ascii.eqb "." ".") with true. cbv iota.
      now apply span_digits_app.
    + exact He.
Qed.

Lemma number_body_parse (s : list ascii) (e1 : Z) (body : list ascii) :
  digit_head s -> all_digits s ->
  body =
    (if Z.leb (Z.of_nat (length s)) (e1 + Z.of_nat (length s))
        && Z.leb (e1 + Z.of_nat (length s)) 21
     then app s (repeat "0"%char (Z.to_nat (e1 + Z.of_nat (length s) - Z.of_nat (length s))))
     else if Z.ltb 0 (e1 + Z.of_nat (length s)) && Z.leb (e1 + Z.of_nat (length s)) 21 then
       app (firstn (Z.to_nat (e1 + Z.of_nat (length s))) s)
           ("."%char :: skipn (Z.to_nat (e1 + Z.of_nat (length s))) s)
     else if Z.ltb (-6) (e1 + Z.of_nat (length s)) && Z.leb (e1 + Z.of_nat (length s)) 0 then
       "0"%char :: "."%char :: app (repeat "0"%char (Z.to_nat (- (e1 + Z.of_nat (length s))))) s
     else
       match s with
       | [d] => d :: "e"%char :: exponent_string (e1 + Z.of_nat (length s) - 1)
       | d :: rest => d :: "."%char :: app rest ("e"%char :: exponent_string (e1 + Z.of_nat (length s) - 1))
       | [] => []
       end) ->
  Forall (fun c => number_char c = true) body
  /\ digit_head body
  /\ exists x', (0 <= x')%Z
       /\ parse_unsigned_decimal body = Some (NDec (decimal_value s * 10 ^ x') (e1 - x')).
Proof.
  intros Hh Hs ->.
  set (k := Z.of_nat (length s)).
  assert (Hk : (1 <= k)%Z) by (unfold k; destruct s; [contradiction|cbn [length]; lia]).
  destruct (Z.leb_spec k (e1 + k)); destruct (Z.leb_spec (e1 + k) 21); cbn [andb].
  - (* an integer, with the trailing zeros written out *)
    set (zs := repeat "0"%char (Z.to_nat (e1 + k - k))).
    assert (Hall : all_digits (app s zs)) by (apply Forall_app; split; [exact Hs|apply zeros_digits]).
    split; [now apply digits_number_chars|].
    split; [now apply digit_head_app|].
    exists e1. split; [lia|].
    rewrite (parse_unsigned_decimal_digits (app s zs) (app s zs) [] [] [] 0%Z).
    + f_equal. f_equal.
      * rewrite app_nil_r, decimal_value_app by (exact Hs || apply zeros_digits).
        unfold zs. rewrite decimal_value_zeros, repeat_length.
        rewrite Z2Nat.id by lia. replace (e1 + k - k)%Z with e1 by lia. ring.
      * cbn [length]. lia.
    + now apply digit_head_app.
    + rewrite <- (app_nil_r (app s zs)) at 1. now apply span_digits_app.
    + reflexivity.
    + reflexivity.
  - (* the exponent form, above 21 digits *)
    replace (Z.ltb (-6) (e1 + k) && Z.leb (e1 + k) 0)%bool with false
      by (symmetry; apply andb_false_iff; right; apply Z.leb_gt; lia).
    rewrite andb_false_r.
    destruct (number_layout_exponent s (e1 + k - 1) Hh Hs) as [H1 [H2 H3]].
    split; [exact H1|]. split; [exact H2|]. exists 0%Z. split; [lia|].
    rewrite H3. f_equal. f_equal; [ring|]. fold k. lia.
  - (* not an integer: a decimal point or the exponent form *)
    destruct (Z.ltb_spec 0 (e1 + k)); cbn [andb].
    + destruct (number_layout_fraction s (Z.to_nat (e1 + k)) Hs) as [F1 [F2 F3]];
        [fold k; lia|].
      split; [exact F1|]. split; [exact F2|]. exists 0%Z. split; [lia|].
      rewrite F3. f_equal. f_equal; [ring|]. fold k. lia.
    + replace (Z.leb (e1 + k) 0) with true by (symmetry; apply Z.leb_le; lia).
      rewrite andb_true_r.
      destruct (Z.ltb_spec (-6) (e1 + k)).
      * destruct (number_layout_small s (Z.to_nat (- (e1 + k))) Hs) as [F1 [F2 F3]].
        split; [exact F1|]. split; [exact F2|]. exists 0%Z. split; [lia|].
        rewrite F3. f_equal. f_equal; [ring|]. fold k. lia.
      * destruct (number_layout_exponent s (e1 + k - 1) Hh Hs) as [F1 [F2 F3]].
        split; [exact F1|]. split; [exact F2|]. exists 0%Z. split; [lia|].
        rewrite F3. f_equal. f_equal; [ring|]. fold k. lia.
  - (* more than 21 digits before the point: the exponent form *)
    rewrite andb_false_r.
    replace (Z.ltb (-6) (e1 + k) && Z.leb (e1 + k) 0)%bool with false
      by (symmetry; apply andb_false_iff; right; apply Z.leb_gt; lia).
    destruct (number_layout_exponent s (e1 + k - 1) Hh Hs) as [H1 [H2 H3]].
    split; [exact H1|]. split; [exact H2|]. exists 0%Z. split; [lia|].
    rewrite H3. f_equal. f_equal; [ring|]. fold k. lia.
Qed.

Lemma jsnum_compare_scaled (a : Z) (p q p' q' : Z) :
  (0 <= p)%Z -> (0 <= p')%Z -> (p + q = p' + q')%Z ->
  jsnum_compare (NDec (a * 10 ^ p) q) (NDec (a * 10 ^ p') q') = Eq.
Proof.
  intros Hp Hp' Hs. cbn [jsnum_compare]. apply Z.compare_eq_iff.
  rewrite <- !Z.mul_assoc, <- !Z.pow_add_r by lia.
  do 2 f_equal. lia.
Qed.

Lemma number_toString_digits (m e : Z) :
  m <> 0%Z ->
  exists s e1 z,
    drop_zeros (rev (Z_digits (Z.abs m))) e = (rev s, e1)
    /\ digit_head s /\ all_digits s
    /\ Z.abs m = (decimal_value s * 10 ^ Z.of_nat z)%Z
    /\ e1 = (e + Z.of_nat z)%Z.
Proof.
  intros Hm.
  destruct (Z_digits_spec (Z.abs m) (Z.abs_nonneg m)) as [Hne [Hall Hval]].
  destruct (drop_zeros_spec (rev (Z_digits (Z.abs m))) e) as [z [H1 H2]].
  destruct (drop_zeros (rev (Z_digits (Z.abs m))) e) as [rds e1]. cbn [fst snd] in H1, H2.
  exists (rev rds), e1, z. rewrite rev_involutive.
  assert (HD : Z_digits (Z.abs m) = app (rev rds) (repeat "0"%char z)).
  { rewrite <- (rev_involutive (Z_digits (Z.abs m))), H1, rev_app_distr, rev_repeat.
    reflexivity. }
  rewrite HD in Hall, Hval. apply Forall_app in Hall. destruct Hall as [Hs Hz].
  rewrite decimal_value_app, decimal_value_zeros, repeat_length in Hval by assumption.
  split; [reflexivity|]. split.
  - destruct (rev rds) as [|d r] eqn:E.
    + cbn in Hval. lia.
    + now inversion Hs.
  - split; [exact Hs|]. split; [lia|exact H2].
Qed.

(** Re-editing a number filter: for an operator other than [$in], the string
    [valueToString] shows for a number parses back, through [parseValue], to a
    number with the same value (compared as [Set] and [$eq] compare numbers). *)
Theorem parseValue_valueToString_number (x : jsnum) (op : FilterOperator) :
  op <> OpIn ->
  exists y, parseValue (valueToString (JNum x)) op = JNum y /\ jsnum_same x y = true.
Proof.
  intros Hop. destruct x as [m e|b].
  2:{ exists (NInf b). destruct b, op; try (exfalso; now apply Hop);
      split; vm_compute; reflexivity. }
  rewrite parseValue_not_in by exact Hop.
  cbn [valueToString js_String]. unfold number_toString.
  destruct (Z.eqb_spec m 0) as [->|Hm].
  { exists (NDec 0 0). split; [vm_compute; reflexivity|].
    unfold jsnum_same, jsnum_compare. now rewrite !Z.mul_0_l. }
  destruct (number_toString_digits m e Hm) as [s [e1 [z [Hdz [Hh [Hs [Hv He1]]]]]]].
  rewrite Hdz, rev_involutive. cbv zeta.
  match goal with
  | |- context [if Z.ltb m 0 then "-"%char :: ?b else ?b] => remember b as B eqn:EB
  end.
  destruct (number_body_parse s e1 B Hh Hs EB) as [HF [HH [x' [Hx' HP]]]].
  rewrite list_ascii_of_string_of_list_ascii.
  destruct (Z.ltb_spec m 0).
  - assert (HF' : Forall (fun c => number_char c = true) ("-"%char :: B))
      by (constructor; [reflexivity|exact HF]).
    rewrite trim_list_no_spaces
      by (eapply Forall_impl; [|exact HF']; intros c Hc; now apply number_char_facts).
    cbv beta iota. rewrite parse_non_decimal_number_chars by exact HF'.
    cbn [parse_decimal]. change (Ascii.eqb "-" "+") with false.
    change (Ascii.eqb "-" "-") with true. cbv iota. rewrite HP. cbn [option_map negate].
    eexists. split; [reflexivity|]. unfold jsnum_same.
    replace m with ((- decimal_value s) * 10 ^ Z.of_nat z)%Z by lia.
    replace (- (decimal_value s * 10 ^ x'))%Z with ((- decimal_value s) * 10 ^ x')%Z by ring.
    rewrite jsnum_compare_scaled by lia. reflexivity.
  - rewrite trim_list_no_spaces
      by (eapply Forall_impl; [|exact HF]; intros c Hc; now apply number_char_facts).
    destruct B as [|d r]; [contradiction|]. cbv beta iota.
    rewrite parse_non_decimal_number_chars by exact HF.
    destruct (decimal_digit_facts d HH) as [_ [Hp [Hn _]]].
    cbn [parse_decimal]. rewrite Hp, Hn. rewrite HP.
    eexists. split; [reflexivity|]. unfold jsnum_same.
    replace m with (decimal_value s * 10 ^ Z.of_nat z)%Z by lia.
    rewrite jsnum_compare_scaled by lia. reflexivity.
Qed.

Lemma parseValue_valueToString_number_witness :
  OpEq <> OpIn /\
  exists y, parseValue (valueToString (JNum (NDec (-2500) (-5)))) OpEq = JNum y
            /\ jsnum_same (NDec (-2500) (-5)) y = true.
Proof.
  split; [discriminate|].
  apply (parseValue_valueToString_number (NDec (-2500) (-5)) OpEq). discriminate.
Defined.
